(** * pisense: the Sense HAT joystick driver ([pisense/stick.py]) and the
    [SenseHAT] facade ([pisense/__init__.py])

    A shallow embedding of the [SenseStick] class.  The object's attributes
    are the fields of one record; every method is a function in a small
    state-and-exception monad over that record.  The two background
    threads ([_read_stick], [_run_callbacks]) are embedded as the loops
    they run, stepped sequentially: one call of the loop body is one
    iteration of the thread. *)

From Stdlib Require Import ZArith.
From Stdlib Require QArith.
From stdpp Require Import gmap strings list fin_maps.

Local Open Scope string_scope.
Local Open Scope Z_scope.

(** ** Python values that reach the driver *)

(** The values that user code hands to the properties: [None], integers,
    strings and callables (a callable is named, so that the trace of handler
    invocations can tell which one ran). *)
Inductive pyval : Type :=
| PyNone
| PyInt (z : Z)
| PyStr (s : string)
| PyFunc (name : string).

(** Python's truth test [if value:]. *)
Definition truthy (v : pyval) : bool :=
  match v with
  | PyNone => false
  | PyInt z => negb (z =? 0)
  | PyStr s => negb (String.eqb s "")
  | PyFunc _ => true
  end.

Inductive exn : Type :=
| Empty                              (* queue.Empty *)
| KeyError (key : pyval)
| ValueError (msg : string)
| AttributeError (attr : string)
| UnboundLocalError (var : string)
| TypeError (msg : string)
| RuntimeError (msg : string)
| IOError (errno : Z).

(** The two advisory categories imported from [pisense.exc]. *)
Inductive warning : Type :=
| SenseStickBufferFull (msg : string)
| SenseStickCallbackRead (msg : string).

(** ** Events *)

(** [InputEvent = namedtuple('InputEvent', ('timestamp', 'direction', 'action'))].
    The timestamp [tv_sec + tv_usec / 1000000] is kept as the exact
    rational; directions and actions are the strings of the source. *)
Record InputEvent : Type := mkInputEvent {
  timestamp : QArith_base.Q;
  direction : string;
  action : string
}.

(** One record of the device after [struct.unpack(EVENT_FORMAT, event)]. *)
Record raw_event : Type := mkRaw {
  tv_sec : Z;
  tv_usec : Z;
  type : Z;
  code : Z;
  value : Z
}.

Definition EV_KEY : Z := 1.

Definition STATE_RELEASE : Z := 0.
Definition STATE_PRESS : Z := 1.
Definition STATE_HOLD : Z := 2.

Definition KEY_UP : Z := 103.
Definition KEY_LEFT : Z := 105.
Definition KEY_RIGHT : Z := 106.
Definition KEY_DOWN : Z := 108.
Definition KEY_ENTER : Z := 28.

Definition SENSE_HAT_EVDEV_NAME : string := "Raspberry Pi Sense HAT Joystick".

(** The two dict literals of [_read_stick]. *)
Definition direction_table : gmap Z string :=
  <[KEY_UP := "up"]> (<[KEY_DOWN := "down"]> (<[KEY_LEFT := "left"]>
    (<[KEY_RIGHT := "right"]> (<[KEY_ENTER := "enter"]> ∅)))).

Definition action_table : gmap Z string :=
  <[STATE_PRESS := "pressed"]> (<[STATE_RELEASE := "released"]>
    (<[STATE_HOLD := "held"]> ∅)).

(** ** [queue.Queue] *)

Record Queue : Type := mkQueue {
  maxsize : Z;
  items : list InputEvent
}.

Definition Queue_new (max_events : Z) : Queue :=
  {| maxsize := max_events; items := [] |}.

Definition qsize (q : Queue) : Z := Z.of_nat (length (items q)).

(** [Queue.full]: [0 < self.maxsize <= self._qsize()]; a queue whose
    [maxsize] is zero or negative is unbounded and never full. *)
Definition Queue_full (q : Queue) : bool :=
  (0 <? maxsize q) && (maxsize q <=? qsize q).

(** ** Threads *)

Inductive Target : Type := target_read_stick | target_run_callbacks.

Record Thread : Type := mkThread { tid : nat; target : Target }.

Global Instance Target_eq_dec : EqDecision Target.
Proof. solve_decision. Defined.

Global Instance Thread_eq_dec : EqDecision Thread.
Proof. solve_decision. Defined.

(** ** The object *)

(** The attributes of a [SenseStick] ([_callbacks_lock] is left out: the
    methods are stepped one at a time), followed by the part of the
    interpreter the methods act on: the threads started and not yet joined,
    the warnings emitted through [warnings.warn], the handler invocations
    made so far and whether the device file is still open.  [_rotate] and
    [rotation] are attributes that [__init__] does not create: [None] is an
    absent attribute. *)
Record SenseStick : Type := mkStick {
  _callbacks_close : bool;
  _callbacks : gmap string pyval;
  _callbacks_thread : option Thread;
  _closing : bool;
  _buffer : Queue;
  _read_thread : option Thread;
  _rotate : option Z;
  rotation : option pyval;
  threads : list Thread;
  next_tid : nat;
  warnings_log : list warning;
  calls : list (string * InputEvent);
  stick_file_open : bool
}.

Definition with_callbacks_close (b : bool) (s : SenseStick) : SenseStick :=
  mkStick b (_callbacks s) (_callbacks_thread s) (_closing s) (_buffer s)
    (_read_thread s) (_rotate s) (rotation s) (threads s) (next_tid s)
    (warnings_log s) (calls s) (stick_file_open s).

Definition with_callbacks (m : gmap string pyval) (s : SenseStick) : SenseStick :=
  mkStick (_callbacks_close s) m (_callbacks_thread s) (_closing s) (_buffer s)
    (_read_thread s) (_rotate s) (rotation s) (threads s) (next_tid s)
    (warnings_log s) (calls s) (stick_file_open s).

Definition with_callbacks_thread (t : option Thread) (s : SenseStick) : SenseStick :=
  mkStick (_callbacks_close s) (_callbacks s) t (_closing s) (_buffer s)
    (_read_thread s) (_rotate s) (rotation s) (threads s) (next_tid s)
    (warnings_log s) (calls s) (stick_file_open s).

Definition with_closing (b : bool) (s : SenseStick) : SenseStick :=
  mkStick (_callbacks_close s) (_callbacks s) (_callbacks_thread s) b (_buffer s)
    (_read_thread s) (_rotate s) (rotation s) (threads s) (next_tid s)
    (warnings_log s) (calls s) (stick_file_open s).

Definition with_buffer (q : Queue) (s : SenseStick) : SenseStick :=
  mkStick (_callbacks_close s) (_callbacks s) (_callbacks_thread s) (_closing s) q
    (_read_thread s) (_rotate s) (rotation s) (threads s) (next_tid s)
    (warnings_log s) (calls s) (stick_file_open s).

Definition with_read_thread (t : option Thread) (s : SenseStick) : SenseStick :=
  mkStick (_callbacks_close s) (_callbacks s) (_callbacks_thread s) (_closing s)
    (_buffer s) t (_rotate s) (rotation s) (threads s) (next_tid s)
    (warnings_log s) (calls s) (stick_file_open s).

Definition with_rotate (r : option Z) (s : SenseStick) : SenseStick :=
  mkStick (_callbacks_close s) (_callbacks s) (_callbacks_thread s) (_closing s)
    (_buffer s) (_read_thread s) r (rotation s) (threads s) (next_tid s)
    (warnings_log s) (calls s) (stick_file_open s).

Definition with_rotation (v : option pyval) (s : SenseStick) : SenseStick :=
  mkStick (_callbacks_close s) (_callbacks s) (_callbacks_thread s) (_closing s)
    (_buffer s) (_read_thread s) (_rotate s) v (threads s) (next_tid s)
    (warnings_log s) (calls s) (stick_file_open s).

Definition with_threads (l : list Thread) (n : nat) (s : SenseStick) : SenseStick :=
  mkStick (_callbacks_close s) (_callbacks s) (_callbacks_thread s) (_closing s)
    (_buffer s) (_read_thread s) (_rotate s) (rotation s) l n
    (warnings_log s) (calls s) (stick_file_open s).

Definition with_warnings_log (w : list warning) (s : SenseStick) : SenseStick :=
  mkStick (_callbacks_close s) (_callbacks s) (_callbacks_thread s) (_closing s)
    (_buffer s) (_read_thread s) (_rotate s) (rotation s) (threads s) (next_tid s)
    w (calls s) (stick_file_open s).

Definition with_calls (c : list (string * InputEvent)) (s : SenseStick) : SenseStick :=
  mkStick (_callbacks_close s) (_callbacks s) (_callbacks_thread s) (_closing s)
    (_buffer s) (_read_thread s) (_rotate s) (rotation s) (threads s) (next_tid s)
    (warnings_log s) c (stick_file_open s).

Definition with_stick_file_open (b : bool) (s : SenseStick) : SenseStick :=
  mkStick (_callbacks_close s) (_callbacks s) (_callbacks_thread s) (_closing s)
    (_buffer s) (_read_thread s) (_rotate s) (rotation s) (threads s) (next_tid s)
    (warnings_log s) (calls s) b.

(** ** The monad of the methods *)

(** A call returns a value, raises, or has not returned: [Pending] is a call
    that waits for something no step of this thread provides (a blocking
    [Queue.get] without timeout on an empty queue, a [join] of a thread that
    has not been told to stop) or a loop that is still running when its
    budget of iterations ends.  The state reached is kept in all three
    cases: writes made before a [raise] stay. *)
Inductive result (A : Type) : Type :=
| Ok (a : A)
| Raise (e : exn)
| Pending.
Arguments Ok {A} a.
Arguments Raise {A} e.
Arguments Pending {A}.

Definition M (A : Type) : Type := SenseStick -> result A * SenseStick.

Definition ret {A} (a : A) : M A := fun s => (Ok a, s).

Definition bind {A B} (m : M A) (k : A -> M B) : M B :=
  fun s =>
    match m s with
    | (Ok a, s') => k a s'
    | (Raise e, s') => (Raise e, s')
    | (Pending, s') => (Pending, s')
    end.

Definition raise {A} (e : exn) : M A := fun s => (Raise e, s).

Definition gets {A} (f : SenseStick -> A) : M A := fun s => (Ok (f s), s).

Definition modify (f : SenseStick -> SenseStick) : M unit := fun s => (Ok tt, f s).

(** [try: m  except E: h] for the exceptions selected by [catches]. *)
Definition try_except {A} (m : M A) (catches : exn -> bool) (h : M A) : M A :=
  fun s =>
    match m s with
    | (Raise e, s') => if catches e then h s' else (Raise e, s')
    | r => r
    end.

(** [try: m  finally: f]. *)
Definition try_finally {A} (m : M A) (f : M unit) : M A :=
  fun s =>
    match m s with
    | (Ok a, s') => bind f (fun _ => ret a) s'
    | (Raise e, s') => bind f (fun _ => raise e) s'
    | (Pending, s') => (Pending, s')
    end.

Declare Scope py_scope.
Delimit Scope py_scope with py.
Notation "x <- m ;; k" := (bind m (fun x => k))
  (at level 100, m at next level, right associativity) : py_scope.
Notation "m ;;; k" := (bind m (fun _ => k))
  (at level 100, right associativity) : py_scope.
Local Open Scope py_scope.

Definition when (b : bool) (m : M unit) : M unit := if b then m else ret tt.

(** ** Library calls the methods make *)

Abbreviation Q := QArith_base.Q.

(** [warnings.warn(w)]: the advisory is recorded, control flow goes on. *)
Definition warnings_warn (w : warning) : M unit :=
  modify (fun s => with_warnings_log (warnings_log s ++ [w]) s).

(** [self._buffer.full()]. *)
Definition buffer_full : M bool := gets (fun s => Queue_full (_buffer s)).

(** [self._buffer.get(timeout=timeout)] with [block=True], as [queue.Queue]
    defines it: without a timeout the call waits until an item is there;
    a negative timeout is a [ValueError]; otherwise the call waits up to
    the timeout and raises [queue.Empty] when nothing arrived.  No other
    thread is stepped during the call, so an empty queue stays empty for
    the whole wait. *)
Definition buffer_get (timeout : option Q) : M InputEvent :=
  fun s =>
    let q := _buffer s in
    match timeout with
    | None =>
        match items q with
        | [] => (Pending, s)
        | e :: rest => (Ok e, with_buffer (mkQueue (maxsize q) rest) s)
        end
    | Some t =>
        if negb (QArith_base.Qle_bool (QArith_base.inject_Z 0) t)
        then (Raise (ValueError "'timeout' must be a non-negative number"), s)
        else
          match items q with
          | [] => (Raise Empty, s)
          | e :: rest => (Ok e, with_buffer (mkQueue (maxsize q) rest) s)
          end
    end.

(** [self._buffer.put(item)] with [block=True, timeout=None]: waits while a
    bounded queue is at its size, then appends. *)
Definition buffer_put (item : InputEvent) : M unit :=
  fun s =>
    let q := _buffer s in
    if (0 <? maxsize q) && (maxsize q <=? qsize q)
    then (Pending, s)
    else (Ok tt, with_buffer (mkQueue (maxsize q) (items q ++ [item])) s).

(** [d[key]] on a dict literal keyed by integers. *)
Definition dict_getitem (d : gmap Z string) (key : Z) : M string :=
  match d !! key with
  | Some v => ret v
  | None => raise (KeyError (PyInt key))
  end.

(** [t = Thread(target=...); t.daemon = True; t.start()]. *)
Definition Thread_start (tg : Target) : M Thread :=
  fun s =>
    let t := mkThread (next_tid s) tg in
    (Ok t, with_threads (threads s ++ [t]) (S (next_tid s)) s).

(** The condition under which the loop of a thread leaves its [while]. *)
Definition stop_requested (tg : Target) (s : SenseStick) : bool :=
  match tg with
  | target_read_stick => _closing s
  | target_run_callbacks => _callbacks_close s || _closing s
  end.

(** What a thread does on its way out: the reader's [finally] closes the
    device file. *)
Definition thread_exit (tg : Target) (s : SenseStick) : SenseStick :=
  match tg with
  | target_read_stick => with_stick_file_open false s
  | target_run_callbacks => s
  end.

(** [t.join()]: returns at once for a thread that is no longer running, and
    otherwise once the thread has left its loop. *)
Definition Thread_join (t : Thread) : M unit :=
  fun s =>
    if bool_decide (t ∈ threads s) then
      if stop_requested (target t) s
      then (Ok tt,
            thread_exit (target t)
              (with_threads (filter (λ u, u ≠ t) (threads s)) (next_tid s) s))
      else (Pending, s)
    else (Ok tt, s).

(** ** [SenseStick] *)

(** *** Construction *)

Definition ENOENT : Z := 2.

(** What reading [<evdev>/device/name] gives for one entry of
    [/sys/class/input/event*]: its content or an [IOError]. *)
Inductive name_read : Type :=
| NameContent (content : string)
| NameIOError (errno : Z).

(** [str.strip()], for the ASCII white space (tab to carriage return, and
    space). *)
Definition is_space (c : Ascii.ascii) : bool :=
  let n := Ascii.nat_of_ascii c in
  ((9 <=? n)%nat && (n <=? 13)%nat) || (n =? 32)%nat.

Fixpoint lstrip (s : string) : string :=
  match s with
  | String c r => if is_space c then lstrip r else s
  | EmptyString => EmptyString
  end.

Fixpoint rstrip (s : string) : string :=
  match s with
  | String c r =>
      match rstrip r with
      | EmptyString => if is_space c then EmptyString else String c EmptyString
      | r' => String c r'
      end
  | EmptyString => EmptyString
  end.

Definition strip (s : string) : string := rstrip (lstrip s).

Fixpoint _stick_device (evdevs : list (string * name_read)) : result string :=
  match evdevs with
  | [] => Raise (RuntimeError "unable to locate SenseHAT joystick device")
  | (evdev, NameContent c) :: rest =>
      if String.eqb (strip c) SENSE_HAT_EVDEV_NAME
      then Ok ("/dev/input/" +:+ evdev)
      else _stick_device rest
  | (evdev, NameIOError e) :: rest =>
      if e =? ENOENT then _stick_device rest else Raise (IOError e)
  end.

(** The attributes [__init__] creates, in the order of the source, once the
    device is located and opened and the reader thread is started. *)
Definition new_stick (max_events : Z) : SenseStick :=
  let t := mkThread 0 target_read_stick in
  {| _callbacks_close := false;
     _callbacks := ∅;
     _callbacks_thread := None;
     _closing := false;
     _buffer := Queue_new max_events;
     _read_thread := Some t;
     _rotate := None;
     rotation := None;
     threads := [t];
     next_tid := 1;
     warnings_log := [];
     calls := [];
     stick_file_open := true |}.

(** [SenseStick(max_events)], on a system whose input devices are [evdevs]. *)
Definition __init__ (max_events : Z) (evdevs : list (string * name_read))
  : result SenseStick :=
  match _stick_device evdevs with
  | Ok _ => Ok (new_stick max_events)
  | Raise e => Raise e
  | Pending => Pending
  end.

(** *** [close] *)

Definition close : M unit :=
  rt <- gets _read_thread ;;
  match rt with
  | Some t =>
      modify (with_closing true) ;;;
      Thread_join t ;;;
      ct <- gets _callbacks_thread ;;
      match ct with
      | Some c => Thread_join c
      | None => ret tt
      end ;;;
      modify (with_read_thread None) ;;;
      modify (with_callbacks_thread None)
  | None => ret tt
  end.

(** *** The reader thread *)

(** What one turn of the reader's loop finds on the device:
    [select.select([stick_file], [], [], 0.1)[0]] empty, or a record read
    and unpacked. *)
Inductive poll : Type :=
| NotReadable
| Readable (r : raw_event).

Definition event_timestamp (r : raw_event) : Q :=
  QArith_base.Qplus (QArith_base.inject_Z (tv_sec r))
                    (QArith_base.Qmake (tv_usec r) 1000000).

Definition buffer_full_msg : string :=
  "The internal SenseStick buffer is full; try reading some events!".

(** The body of [if select.select(...)[0]:] for the record [r]. *)
Definition _read_stick_record (r : raw_event) : M unit :=
  if type r =? EV_KEY then
    full <- buffer_full ;;
    when full
      (warnings_warn (SenseStickBufferFull buffer_full_msg) ;;;
       _evicted <- buffer_get None ;;
       ret tt) ;;;
    let ts := event_timestamp r in
    d <- dict_getitem direction_table (code r) ;;
    a <- dict_getitem action_table (value r) ;;
    buffer_put (mkInputEvent ts d a)
  else ret tt.

(** One turn of the [while] body. *)
Definition _read_stick_iter (p : poll) : M unit :=
  match p with
  | NotReadable => ret tt
  | Readable r => _read_stick_record r
  end.

(** The [while not self._closing.wait(0)] loop over the turns [polls]; the
    loop is still running ([Pending]) when they are used up. *)
Fixpoint _read_stick_loop (polls : list poll) : M unit :=
  closing <- gets _closing ;;
  if closing then ret tt
  else
    match polls with
    | [] => fun s => (Pending, s)
    | p :: rest => _read_stick_iter p ;;; _read_stick_loop rest
    end.

(** [_read_stick]: the loop, and [stick_file.close()] however it ends. *)
Definition _read_stick (polls : list poll) : M unit :=
  try_finally (_read_stick_loop polls) (modify (with_stick_file_open false)).

(** *** The dispatch thread *)

(** [cb(event)]: calling a function records the invocation; anything else
    is not callable. *)
Definition call (cb : pyval) (event : InputEvent) : M unit :=
  match cb with
  | PyFunc name => modify (fun s => with_calls (calls s ++ [(name, event)]) s)
  | _ => raise (TypeError "object is not callable")
  end.

Definition is_KeyError (e : exn) : bool :=
  match e with KeyError _ => true | _ => false end.

(** [self._callbacks[event.direction]]. *)
Definition callbacks_getitem (k : string) : M pyval :=
  m <- gets _callbacks ;;
  match m !! k with
  | Some v => ret v
  | None => raise (KeyError (PyStr k))
  end.

(** One turn of the [while] body of [_run_callbacks].  [cb] is the local
    variable of that name as the previous turns left it: [None] while it
    has never been assigned.  The turn returns the binding it leaves. *)
Definition _run_callbacks_iter (cb : option pyval) : M (option pyval) :=
  event <- buffer_get (Some (QArith_base.Qmake 1 10)) ;;
  (* [if event is not None:] holds for every item of the queue *)
  cb' <- try_except
           (f <- callbacks_getitem (direction event) ;; ret (Some f))
           is_KeyError
           (ret cb) ;;
  match cb' with
  | Some f => call f event ;;; ret cb'
  | None => raise (UnboundLocalError "cb")
  end.

(** [while not self._callbacks_close.wait(0) and not self._closing.wait(0)],
    for at most [fuel] turns. *)
Fixpoint _run_callbacks_loop (fuel : nat) (cb : option pyval) : M unit :=
  stop <- gets (stop_requested target_run_callbacks) ;;
  if stop then ret tt
  else
    match fuel with
    | O => fun s => (Pending, s)
    | S n => cb' <- _run_callbacks_iter cb ;; _run_callbacks_loop n cb'
    end.

Definition _run_callbacks (fuel : nat) : M unit := _run_callbacks_loop fuel None.

(** *** Starting and stopping the dispatch thread *)

Definition _start_stop_callbacks : M unit :=
  cbs <- gets _callbacks ;;
  ct <- gets _callbacks_thread ;;
  if bool_decide (cbs ≠ ∅) && bool_decide (ct = None) then
    modify (with_callbacks_close false) ;;;
    t <- Thread_start target_run_callbacks ;;
    modify (with_callbacks_thread (Some t))
  else
    match ct with
    | Some t =>
        if bool_decide (cbs = ∅) then
          modify (with_callbacks_close true) ;;;
          Thread_join t ;;;
          modify (with_callbacks_thread None)
        else ret tt
    | None => ret tt
    end.

(** *** [rotate] *)

Definition _get_rotate : M Z :=
  r <- gets _rotate ;;
  match r with
  | Some v => ret v
  | None => raise (AttributeError "_rotate")
  end.

(** [_set_rotate] for an integer [value]; [%] is Python's floored modulo,
    which is [Z.modulo] for a positive divisor. *)
Definition _set_rotate (value : Z) : M unit :=
  if negb (value mod 90 =? 0) then
    raise (ValueError "rotate must be a multiple of 90")
  else modify (with_rotate (Some (value mod 360))).

(** *** [read] *)

Definition is_Empty (e : exn) : bool :=
  match e with Empty => true | _ => false end.

Definition read (timeout : option Q) : M (option InputEvent) :=
  ct <- gets _callbacks_thread ;;
  when (bool_decide (ct ≠ None))
    (warnings_warn (SenseStickCallbackRead
       "read called while when_* callbacks are assigned")) ;;;
  try_except
    (e <- buffer_get timeout ;; ret (Some e))
    is_Empty
    (ret None).

(** *** The [when_*] properties *)

Definition when_get (name : string) : M pyval :=
  m <- gets _callbacks ;;
  ret (default PyNone (m !! name)).

Definition when_set (name : string) (value : pyval) : M unit :=
  (if truthy value
   then modify (fun s => with_callbacks (<[name := value]> (_callbacks s)) s)
   else modify (fun s => with_callbacks (delete name (_callbacks s)) s)) ;;;
  _start_stop_callbacks.

Definition when_up : M pyval := when_get "up".
Definition when_up_setter (value : pyval) : M unit := when_set "up" value.
Definition when_down : M pyval := when_get "down".
Definition when_down_setter (value : pyval) : M unit := when_set "down" value.
Definition when_left : M pyval := when_get "left".
Definition when_left_setter (value : pyval) : M unit := when_set "left" value.
Definition when_right : M pyval := when_get "right".
Definition when_right_setter (value : pyval) : M unit := when_set "right" value.
Definition when_enter : M pyval := when_get "enter".
Definition when_enter_setter (value : pyval) : M unit := when_set "enter" value.

(** ** [SenseHAT] *)

(** The screen ([SenseScreen], of [pisense/screen.py]) enters only through
    the setter of its [rotation] property, which may accept or reject a
    value; it is kept abstract. *)
Class ScreenRotation (S : Type) : Type :=
  screen_set_rotation : pyval -> S -> result unit * S.

Section Facade.
Context {S : Type} `{ScreenRotation S}.

(** The two attributes of [SenseHAT] that its [rotation] property uses. *)
Record SenseHAT : Type := mkHAT {
  _screen : S;
  _stick : SenseStick
}.

(** [self._stick.rotation = value]: [SenseStick] has no property, slot or
    [__setattr__] of that name, so the assignment creates or rebinds the
    instance attribute [rotation]. *)
Definition stick_setattr_rotation (value : pyval) : M unit :=
  modify (with_rotation (Some value)).

(** The setter of [SenseHAT.rotation]. *)
Definition SenseHAT_rotation_setter (value : pyval) (hat : SenseHAT)
  : result unit * SenseHAT :=
  match screen_set_rotation value (_screen hat) with
  | (Ok _, scr) =>
      match stick_setattr_rotation value (_stick hat) with
      | (r, stk) => (r, mkHAT scr stk)
      end
  | (Raise e, scr) => (Raise e, mkHAT scr (_stick hat))
  | (Pending, scr) => (Pending, mkHAT scr (_stick hat))
  end.
End Facade.
Arguments SenseHAT S : clear implicits.

(** ** Sequences of assignments to the [when_*] properties *)

Inductive when_property : Type :=
| prop_when_up | prop_when_down | prop_when_left | prop_when_right
| prop_when_enter.

Definition assign (p : when_property) (value : pyval) : M unit :=
  match p with
  | prop_when_up => when_up_setter value
  | prop_when_down => when_down_setter value
  | prop_when_left => when_left_setter value
  | prop_when_right => when_right_setter value
  | prop_when_enter => when_enter_setter value
  end.

Fixpoint assign_all (ops : list (when_property * pyval)) : M unit :=
  match ops with
  | [] => ret tt
  | (p, v) :: rest => assign p v ;;; assign_all rest
  end.

(** The dispatch threads among the threads started and not yet joined. *)
Definition is_dispatch (t : Thread) : bool :=
  match target t with target_run_callbacks => true | target_read_stick => false end.

Definition dispatch_threads (s : SenseStick) : list Thread :=
  filter (λ t, is_dispatch t = true) (threads s).

(** ** What a key record stands for *)

(** [r] is a key record that the two tables map to the event [e]. *)
Definition parses_to (r : raw_event) (e : InputEvent) : Prop :=
  type r = EV_KEY ∧
  direction_table !! code r = Some (direction e) ∧
  action_table !! value r = Some (action e) ∧
  timestamp e = event_timestamp r.

(** A bounded queue holds at most [maxsize] items. *)
Definition buffer_ok (s : SenseStick) : Prop :=
  0 < maxsize (_buffer s) → qsize (_buffer s) ≤ maxsize (_buffer s).

(** ** Notions the properties are stated with *)

(** The overflow step at the head of the key branch: when the buffer is
    full, one advisory and the oldest item gone. *)
Definition after_overflow (s : SenseStick) : SenseStick :=
  if Queue_full (_buffer s)
  then with_buffer (mkQueue (maxsize (_buffer s)) (tail (items (_buffer s))))
         (with_warnings_log (warnings_log s ++ [SenseStickBufferFull buffer_full_msg]) s)
  else s.

(** The buffer of [s] without its oldest item. *)
Definition popped (s : SenseStick) : SenseStick :=
  with_buffer (mkQueue (maxsize (_buffer s)) (tail (items (_buffer s)))) s.

(** The buffer of [s] is bounded by [C] and within its bound. *)
Definition bounded_by (C : nat) (s : SenseStick) : Prop :=
  maxsize (_buffer s) = Z.of_nat C ∧ (length (items (_buffer s)) ≤ C)%nat.

(** What holds between the calls of the [when_*] setters: [close] has not
    been called, the dispatch threads running are exactly the one the handle
    names, and thread identifiers in use are below the next one. *)
Definition handle_inv (s : SenseStick) : Prop :=
  _closing s = false ∧
  dispatch_threads s = option_list (_callbacks_thread s) ∧
  (∀ t, t ∈ threads s → (tid t < next_tid s)%nat).

(** ... and the handle is set exactly when a handler is registered. *)
Definition lifecycle_inv (s : SenseStick) : Prop :=
  handle_inv s ∧ (_callbacks_thread s = None ↔ _callbacks s = ∅).

(** ** The rest of the public surface *)

(** [__iter__]: the generator [while True: yield self.read()], as the values
    of its first [n] [next()] calls. *)
Fixpoint __iter__ (n : nat) : M (list (option InputEvent)) :=
  match n with
  | O => ret []
  | S k => x <- read None ;; xs <- __iter__ k ;; ret (x :: xs)
  end.

(** [__enter__] returns the object; [__exit__] closes it and returns [None];
    [__del__] closes it. *)
Definition __enter__ : M unit := ret tt.
Definition __exit__ : M pyval := close ;;; ret PyNone.
Definition __del__ : M unit := close.

(** [with stick: body], as Python runs a [with] statement: [__enter__],
    the body, then [__exit__] on both ways out; an exception of the body is
    raised again unless [__exit__] returns a true value ([None] then stands
    for the body that did not complete). *)
Definition with_statement {A} (body : M A) : M (option A) :=
  fun s =>
    match (__enter__ ;;; body) s with
    | (Ok a, s1) => (__exit__ ;;; ret (Some a)) s1
    | (Raise e, s1) =>
        (suppress <- __exit__ ;;
         if truthy suppress then ret None else raise e) s1
    | (Pending, s1) => (Pending, s1)
    end.

(** Reading one of the five [when_*] properties. *)
Definition fetch (p : when_property) : M pyval :=
  match p with
  | prop_when_up => when_up
  | prop_when_down => when_down
  | prop_when_left => when_left
  | prop_when_right => when_right
  | prop_when_enter => when_enter
  end.

(** The state after the assignments [stick.rotate = v] for [v] in [vs], each
    one either accepted or refused with [ValueError]. *)
Definition rotate_after (vs : list Z) (s : SenseStick) : SenseStick :=
  fold_left (λ s v, snd (_set_rotate v s)) vs s.

(** A turn of the reader that finds a key record. *)
Definition is_key_poll (p : poll) : Prop :=
  match p with
  | Readable r => type r = EV_KEY
  | NotReadable => False
  end.

Global Instance is_key_poll_dec (p : poll) : Decision (is_key_poll p).
Proof. destruct p; simpl; apply _. Defined.

(** A key record whose code or value is in neither table. *)
Definition unmapped (r : raw_event) : Prop :=
  type r = EV_KEY ∧
  (direction_table !! code r = None ∨ action_table !! value r = None).

Definition unmapped_poll (p : poll) : Prop :=
  match p with
  | Readable r => unmapped r
  | NotReadable => False
  end.

Global Instance unmapped_poll_dec (p : poll) : Decision (unmapped_poll p).
Proof. destruct p; simpl; unfold unmapped; apply _. Defined.

(** The reader thread that [__init__] starts. *)
Definition reader0 : Thread := mkThread 0 target_read_stick.

(** A string of white space only. *)
Fixpoint all_space (s : string) : bool :=
  match s with
  | String c r => is_space c && all_space r
  | EmptyString => true
  end.

(** The last character of a string, if any. *)
Fixpoint last_char (s : string) : option Ascii.ascii :=
  match s with
  | EmptyString => None
  | String c EmptyString => Some c
  | String _ r => last_char r
  end.

(** An entry of the device list that [_stick_device] passes over: a name
    that is not the joystick's, or a name file that is gone. *)
Definition passed_over (x : string * name_read) : Prop :=
  match x.2 with
  | NameContent c => strip c ≠ SENSE_HAT_EVDEV_NAME
  | NameIOError e => e = ENOENT
  end.

(** The advisory a call of [read] emits: one when the dispatch handle is
    set, none otherwise. *)
Definition read_advisory (s : SenseStick) : list warning :=
  if bool_decide (_callbacks_thread s ≠ None)
  then [SenseStickCallbackRead "read called while when_* callbacks are assigned"]
  else [].

(** The dispatch handle, when set, names a thread that runs
    [_run_callbacks]: no other thread is ever stored in it. *)
Definition dispatch_handle_ok (s : SenseStick) : Prop :=
  ∀ t, _callbacks_thread s = Some t → target t = target_run_callbacks.

(** The key of [_callbacks] behind each [when_*] property. *)
Definition key_of (p : when_property) : string :=
  match p with
  | prop_when_up => "up"
  | prop_when_down => "down"
  | prop_when_left => "left"
  | prop_when_right => "right"
  | prop_when_enter => "enter"
  end.

(** * Properties *)

(** ** The monad *)

Lemma bind_Ok {A B} (m : M A) (k : A → M B) s a s' :
  m s = (Ok a, s') → bind m k s = k a s'.
Proof. intros E. unfold bind. by rewrite E. Qed.

Lemma bind_Raise {A B} (m : M A) (k : A → M B) s e s' :
  m s = (Raise e, s') → bind m k s = (Raise e, s').
Proof. intros E. unfold bind. by rewrite E. Qed.

(** ** [rotate] *)

Lemma mod_90_mod_360 v : v mod 90 = 0 → (v mod 360) mod 90 = 0.
Proof.
  intros E.
  pose proof (Z.div_mod v 360 ltac:(lia)) as D.
  assert (v mod 360 = v - 90 * (4 * (v / 360))) as -> by lia.
  replace (v - 90 * (4 * (v / 360))) with (v + (- (4 * (v / 360))) * 90) by lia.
  by rewrite Z.mod_add by lia.
Qed.

(** C5. The [rotate] setter raises [ValueError] for every integer that is not
    an exact multiple of 90 and leaves the object as it was; for every
    multiple of 90 it stores the value reduced modulo 360, a multiple of 90 in
    [0, 360) that the getter then returns; 0, 90, 180 and 270 are stored as
    given, 360 as 0 and -90 as 270, and 45, -10 and 91 are rejected. *)
Theorem set_rotate_spec (s : SenseStick) (v : Z) :
  ((¬ ∃ k, v = 90 * k) →
     _set_rotate v s = (Raise (ValueError "rotate must be a multiple of 90"), s)) ∧
  ((∃ k, v = 90 * k) →
     ∃ r, _set_rotate v s = (Ok tt, with_rotate (Some r) s) ∧
          0 ≤ r < 360 ∧ (∃ j, v = r + 360 * j) ∧ (∃ i, r = 90 * i) ∧
          _get_rotate (with_rotate (Some r) s) = (Ok r, with_rotate (Some r) s)) ∧
  (∀ r, r ∈ [45; -10; 91] →
     _set_rotate r s = (Raise (ValueError "rotate must be a multiple of 90"), s)) ∧
  (∀ r, r ∈ [0; 90; 180; 270] →
     _set_rotate r s = (Ok tt, with_rotate (Some r) s)) ∧
  _set_rotate 360 s = (Ok tt, with_rotate (Some 0) s) ∧
  _set_rotate (-90) s = (Ok tt, with_rotate (Some 270) s).
Proof.
  repeat split.
  - intros Hn. unfold _set_rotate.
    destruct (Z.eqb_spec (v mod 90) 0) as [E|E]; [|done].
    exfalso. apply Hn. exists (v / 90).
    pose proof (Z.div_mod v 90 ltac:(lia)). lia.
  - intros [k ->]. exists ((90 * k) mod 360).
    assert ((90 * k) mod 90 = 0) as E0.
    { rewrite Z.mul_comm. apply Z.mod_mul. lia. }
    unfold _set_rotate. rewrite E0. simpl.
    pose proof (Z.mod_pos_bound (90 * k) 360 ltac:(lia)) as B.
    pose proof (Z.div_mod (90 * k) 360 ltac:(lia)) as D.
    pose proof (mod_90_mod_360 _ E0) as E1.
    repeat split; try lia.
    + exists ((90 * k) / 360). lia.
    + exists (((90 * k) mod 360) / 90).
      pose proof (Z.div_mod ((90 * k) mod 360) 90 ltac:(lia)). lia.
  - intros r Hr. repeat (apply elem_of_cons in Hr as [->|Hr]; [reflexivity|]).
    by apply elem_of_nil in Hr.
  - intros r Hr. repeat (apply elem_of_cons in Hr as [->|Hr]; [reflexivity|]).
    by apply elem_of_nil in Hr.
Qed.

Lemma set_rotate_spec_witness :
  _set_rotate 45 (new_stick 100)
    = (Raise (ValueError "rotate must be a multiple of 90"), new_stick 100) ∧
  (∃ r, _set_rotate 450 (new_stick 100) = (Ok tt, with_rotate (Some r) (new_stick 100)) ∧
        0 ≤ r < 360 ∧ (∃ j, 450 = r + 360 * j) ∧ (∃ i, r = 90 * i) ∧
        _get_rotate (with_rotate (Some r) (new_stick 100))
          = (Ok r, with_rotate (Some r) (new_stick 100))) ∧
  _set_rotate 91 (new_stick 100)
    = (Raise (ValueError "rotate must be a multiple of 90"), new_stick 100) ∧
  _set_rotate 180 (new_stick 100) = (Ok tt, with_rotate (Some 180) (new_stick 100)).
Proof.
  destruct (set_rotate_spec (new_stick 100) 45) as (H1 & _).
  destruct (set_rotate_spec (new_stick 100) 450) as (_ & H2 & H3 & H4 & _).
  split; [|split; [|split]].
  - apply H1. intros [k Hk]. lia.
  - apply H2. exists 5. lia.
  - apply H3. set_solver.
  - apply H4. set_solver.
Defined.

(** C9. Reading [rotate] on a [SenseStick] that has just been constructed
    raises [AttributeError]: [__init__] creates no [_rotate] attribute. *)
Theorem get_rotate_after_init (max_events : Z) (evdevs : list (string * name_read))
    (s : SenseStick) :
  __init__ max_events evdevs = Ok s →
  _rotate s = None ∧ _get_rotate s = (Raise (AttributeError "_rotate"), s).
Proof.
  unfold __init__. destruct (_stick_device evdevs); [|done..].
  intros [= <-]. done.
Qed.

Lemma get_rotate_after_init_witness :
  __init__ 100 [("event0", NameIOError ENOENT);
                ("event1", NameContent "gpio_keys");
                ("event2", NameContent "Raspberry Pi Sense HAT Joystick
")] = Ok (new_stick 100) ∧
  _rotate (new_stick 100) = None ∧
  _get_rotate (new_stick 100) = (Raise (AttributeError "_rotate"), new_stick 100).
Proof.
  split; [reflexivity|].
  apply (get_rotate_after_init 100
           [("event0", NameIOError ENOENT);
            ("event1", NameContent "gpio_keys");
            ("event2", NameContent "Raspberry Pi Sense HAT Joystick
")]).
  reflexivity.
Defined.

(** ** The reader *)

Lemma direction_table_lookup (c : Z) :
  direction_table !! c =
    if c =? KEY_UP then Some "up"
    else if c =? KEY_DOWN then Some "down"
    else if c =? KEY_LEFT then Some "left"
    else if c =? KEY_RIGHT then Some "right"
    else if c =? KEY_ENTER then Some "enter"
    else None.
Proof.
  unfold direction_table.
  repeat (match goal with
          | |- context [c =? ?k] =>
              destruct (Z.eqb_spec c k) as [->|?];
              [by rewrite ?lookup_insert_eq | rewrite lookup_insert_ne by done]
          end).
  apply lookup_empty.
Qed.

Lemma action_table_lookup (v : Z) :
  action_table !! v =
    if v =? STATE_PRESS then Some "pressed"
    else if v =? STATE_RELEASE then Some "released"
    else if v =? STATE_HOLD then Some "held"
    else None.
Proof.
  unfold action_table.
  repeat (match goal with
          | |- context [v =? ?k] =>
              destruct (Z.eqb_spec v k) as [->|?];
              [by rewrite ?lookup_insert_eq | rewrite lookup_insert_ne by done]
          end).
  apply lookup_empty.
Qed.

Lemma Queue_full_items (q : Queue) :
  Queue_full q = true → ∃ e rest, items q = e :: rest.
Proof.
  unfold Queue_full, qsize. intros F.
  apply andb_true_iff in F as [F1 F2].
  apply Z.ltb_lt in F1. apply Z.leb_le in F2.
  destruct (items q) as [|e rest]; [simpl in F2; lia | eauto].
Qed.

Lemma overflow_then {B} (k : M B) (s : SenseStick) :
  bind buffer_full (fun full =>
    bind (when full
            (warnings_warn (SenseStickBufferFull buffer_full_msg) ;;;
             _evicted <- buffer_get None ;; ret tt))
         (fun _ => k)) s
  = k (after_overflow s).
Proof.
  unfold after_overflow, bind, buffer_full, gets, when.
  destruct (Queue_full (_buffer s)) eqn:F; [|done].
  destruct (Queue_full_items _ F) as (e & rest & E).
  unfold warnings_warn, modify, buffer_get, ret. simpl. rewrite E. done.
Qed.

Lemma after_overflow_not_full (s : SenseStick) :
  buffer_ok s →
  (0 <? maxsize (_buffer (after_overflow s)))
    && (maxsize (_buffer (after_overflow s)) <=? qsize (_buffer (after_overflow s)))
  = false.
Proof.
  unfold buffer_ok, after_overflow. intros Hok.
  destruct (Queue_full (_buffer s)) eqn:F.
  - destruct (Queue_full_items _ F) as (e & rest & E).
    unfold Queue_full in F. apply andb_true_iff in F as [F1 F2].
    apply Z.ltb_lt in F1. apply Z.leb_le in F2. specialize (Hok F1).
    unfold qsize in *. simpl. rewrite E in *. simpl in *.
    apply andb_false_iff. right. apply Z.leb_gt. lia.
  - exact F.
Qed.

(** A key record whose code and value are in the tables: the overflow step,
    then the event at the tail of the buffer. *)
Lemma read_stick_record_mapped (r : raw_event) (s : SenseStick) (d a : string) :
  type r = EV_KEY → buffer_ok s →
  direction_table !! code r = Some d → action_table !! value r = Some a →
  _read_stick_record r s =
    (Ok tt,
     with_buffer
       (mkQueue (maxsize (_buffer (after_overflow s)))
          (items (_buffer (after_overflow s)) ++ [mkInputEvent (event_timestamp r) d a]))
       (after_overflow s)).
Proof.
  intros Ht Hok Hd Ha. unfold _read_stick_record. rewrite Ht, Z.eqb_refl.
  rewrite overflow_then.
  unfold bind, dict_getitem. rewrite Hd, Ha. simpl.
  unfold buffer_put. by rewrite after_overflow_not_full.
Qed.

Lemma read_stick_record_unmapped_code (r : raw_event) (s : SenseStick) :
  type r = EV_KEY → direction_table !! code r = None →
  _read_stick_record r s = (Raise (KeyError (PyInt (code r))), after_overflow s).
Proof.
  intros Ht Hd. unfold _read_stick_record. rewrite Ht, Z.eqb_refl.
  rewrite overflow_then. unfold bind, dict_getitem. by rewrite Hd.
Qed.

Lemma read_stick_record_unmapped_value (r : raw_event) (s : SenseStick) (d : string) :
  type r = EV_KEY → direction_table !! code r = Some d →
  action_table !! value r = None →
  _read_stick_record r s = (Raise (KeyError (PyInt (value r))), after_overflow s).
Proof.
  intros Ht Hd Ha. unfold _read_stick_record. rewrite Ht, Z.eqb_refl.
  rewrite overflow_then. unfold bind, dict_getitem. by rewrite Hd, Ha.
Qed.

Lemma read_stick_record_other_type (r : raw_event) (s : SenseStick) :
  type r ≠ EV_KEY → _read_stick_record r s = (Ok tt, s).
Proof.
  intros Ht. unfold _read_stick_record.
  by destruct (Z.eqb_spec (type r) EV_KEY).
Qed.

(** [buffer_ok] holds of a new object and is kept by every record read. *)
Lemma new_stick_buffer_ok (max_events : Z) : buffer_ok (new_stick max_events).
Proof. unfold buffer_ok, qsize. simpl. lia. Qed.

Lemma after_overflow_buffer_ok (s : SenseStick) :
  buffer_ok s → buffer_ok (after_overflow s).
Proof.
  unfold buffer_ok, after_overflow, qsize. intros Hok.
  destruct (Queue_full (_buffer s)); [|done].
  simpl. intros Hpos. specialize (Hok Hpos).
  destruct (items (_buffer s)); simpl in *; lia.
Qed.

Lemma read_stick_record_buffer_ok (r : raw_event) (s : SenseStick) :
  buffer_ok s → buffer_ok (snd (_read_stick_record r s)).
Proof.
  intros Hok.
  destruct (Z.eq_dec (type r) EV_KEY) as [Ht|Ht];
    [|by rewrite read_stick_record_other_type].
  destruct (direction_table !! code r) as [d|] eqn:Hd;
    [|rewrite read_stick_record_unmapped_code by done;
      by apply after_overflow_buffer_ok].
  destruct (action_table !! value r) as [a|] eqn:Ha;
    [|rewrite (read_stick_record_unmapped_value r s d) by done;
      by apply after_overflow_buffer_ok].
  rewrite (read_stick_record_mapped r s d a) by done.
  pose proof (after_overflow_not_full s Hok) as NF.
  unfold buffer_ok, qsize in *. simpl. intros Hpos.
  apply andb_false_iff in NF as [NF|NF].
  - apply Z.ltb_ge in NF. lia.
  - apply Z.leb_gt in NF. rewrite length_app. simpl. lia.
Qed.

(** A buffer built with [max_events <= 0] is unbounded: it is never full, a
    push emits no advisory and evicts nothing. *)
Lemma unbounded_push (r : raw_event) (e : InputEvent) (s : SenseStick) :
  maxsize (_buffer s) ≤ 0 → parses_to r e →
  _read_stick_record r s
  = (Ok tt, with_buffer (mkQueue (maxsize (_buffer s)) (items (_buffer s) ++ [e])) s).
Proof.
  intros Hm (Ht & Hd & Ha & Hts).
  assert (Queue_full (_buffer s) = false) as NF.
  { unfold Queue_full. apply andb_false_iff. left. apply Z.ltb_ge. lia. }
  rewrite (read_stick_record_mapped r s (direction e) (action e)); try done.
  - unfold after_overflow. rewrite NF, <- Hts. by destruct e.
  - intros Hpos. lia.
Qed.



(** ** The bounded buffer under a run of pushes *)

Section Pushes.
Variable C : nat.
Hypothesis C_pos : (0 < C)%nat.

Lemma bounded_by_ok s : bounded_by C s → buffer_ok s.
Proof. intros [Hm Hl] _. unfold qsize. lia. Qed.

Lemma Queue_full_bounded s :
  bounded_by C s →
  Queue_full (_buffer s) = bool_decide (length (items (_buffer s)) = C).
Proof.
  intros [Hm Hl]. unfold Queue_full, qsize. rewrite Hm.
  case_bool_decide as E.
  - rewrite E. apply andb_true_iff. split; [apply Z.ltb_lt|apply Z.leb_le]; lia.
  - apply andb_false_iff. right. apply Z.leb_gt. lia.
Qed.

(** One push: at capacity the oldest item goes and one (SenseStickBufferFull buffer_full_msg) is
    emitted; the event is appended in both cases. *)
Lemma push_step r e s :
  parses_to r e → bounded_by C s →
  ∃ s', _read_stick_record r s = (Ok tt, s') ∧
        bounded_by C s' ∧ _closing s' = _closing s ∧
        (if bool_decide (length (items (_buffer s)) = C)
         then items (_buffer s') = (tail (items (_buffer s)) ++ [e])%list ∧
              warnings_log s' = (warnings_log s ++ [SenseStickBufferFull buffer_full_msg])%list
         else items (_buffer s') = (items (_buffer s) ++ [e])%list ∧
              warnings_log s' = warnings_log s).
Proof.
  intros (Ht & Hd & Ha & Hts) Hb.
  pose proof (Queue_full_bounded s Hb) as HF.
  destruct Hb as [Hm Hl].
  eexists. split.
  { apply (read_stick_record_mapped r s (direction e) (action e)); try done.
    by apply bounded_by_ok. }
  rewrite <- Hts.
  assert (mkInputEvent (timestamp e) (direction e) (action e) = e) as ->
    by by destruct e.
  unfold after_overflow, bounded_by. rewrite HF.
  case_bool_decide as E; simpl.
  - destruct (items (_buffer s)) as [|x l]; simpl in *; [lia|].
    rewrite length_app. simpl. repeat split; try done; lia.
  - rewrite length_app. simpl. repeat split; try done; lia.
Qed.

Lemma read_stick_loop_cons r rest s :
  _closing s = false →
  _read_stick_loop (Readable r :: rest) s
  = bind (_read_stick_record r) (fun _ => _read_stick_loop rest) s.
Proof. intros Hc. simpl. unfold bind at 1, gets. by rewrite Hc. Qed.

(** A run of pushes from any buffer within its bound. *)
Lemma pushes_from rs evs :
  Forall2 parses_to rs evs →
  ∀ s, bounded_by C s → _closing s = false →
  ∃ s', _read_stick_loop (Readable <$> rs) s = (Pending, s') ∧
        bounded_by C s' ∧
        items (_buffer s')
          = drop (length (items (_buffer s)) + length evs - C)
                 (items (_buffer s) ++ evs) ∧
        warnings_log s'
          = (warnings_log s
             ++ replicate (length (items (_buffer s)) + length evs - C) (SenseStickBufferFull buffer_full_msg))%list.
Proof.
  induction 1 as [|r e rs evs Hre Hrest IH]; intros s Hb Hc.
  - exists s. simpl. unfold bind, gets. rewrite Hc.
    destruct Hb as [Hm Hl]. repeat split; try done.
    + rewrite app_nil_r. replace (_ + 0 - C)%nat with 0%nat by lia. done.
    + replace (_ + 0 - C)%nat with 0%nat by lia. simpl. by rewrite app_nil_r.
  - destruct (push_step r e s Hre Hb) as (s1 & E1 & Hb1 & Hc1 & Hitems).
    destruct (IH s1 Hb1 ltac:(congruence)) as (s' & E' & Hb' & Hi' & Hw').
    exists s'. rewrite fmap_cons, read_stick_loop_cons by done.
    rewrite (bind_Ok _ _ _ _ _ E1). split; [done|]. split; [done|].
    destruct Hb as [Hm Hl].
    case_bool_decide as E; destruct Hitems as [Hi1 Hw1];
      rewrite Hi', Hw', Hi1, Hw1; simpl length.
    + destruct (items (_buffer s)) as [|x l] eqn:El; simpl in *; [lia|].
      rewrite length_app. simpl.
      assert (length l + 1 + length evs - C = length evs)%nat as -> by lia.
      assert (S (length l + S (length evs)) - C = S (length evs))%nat as ->
        by lia.
      simpl. rewrite <- !app_assoc. done.
    + rewrite length_app. simpl.
      assert (length (items (_buffer s)) + 1 + length evs - C
              = length (items (_buffer s)) + S (length evs) - C)%nat as ->
        by lia.
      rewrite <- !app_assoc. done.
Qed.
End Pushes.

(** C3, for a capacity of at least one. [N] pushes into an empty buffer
    built with [max_events = C], [1 <= C < N]: the buffer then holds the last
    [C] events in the order they were pushed, [N - C] buffer-full advisories
    were emitted, and after every prefix of the pushes the buffer holds the
    last [C] events of the prefix (so never more than [C]), with one advisory
    for each push beyond the first [C]. *)
Theorem pushes_beyond_capacity (C : nat) (rs : list raw_event)
    (evs : list InputEvent) (s : SenseStick) :
  (0 < C)%nat →
  maxsize (_buffer s) = Z.of_nat C → items (_buffer s) = [] →
  _closing s = false →
  Forall2 parses_to rs evs → (C < length rs)%nat →
  (∃ s', _read_stick_loop (Readable <$> rs) s = (Pending, s') ∧
         items (_buffer s') = drop (length rs - C) evs ∧
         length (items (_buffer s')) = C ∧
         warnings_log s'
           = (warnings_log s
              ++ replicate (length rs - C) (SenseStickBufferFull buffer_full_msg))%list) ∧
  (∀ n, ∃ s_n,
     _read_stick_loop (Readable <$> take n rs) s = (Pending, s_n) ∧
     items (_buffer s_n) = drop (length (take n rs) - C) (take n evs) ∧
     (length (items (_buffer s_n)) ≤ C)%nat ∧
     warnings_log s_n
       = (warnings_log s
          ++ replicate (length (take n rs) - C) (SenseStickBufferFull buffer_full_msg))%list).
Proof.
  intros HC Hm Hi Hc HF HN.
  assert (bounded_by C s) as Hb.
  { split; [done|]. rewrite Hi. simpl. lia. }
  pose proof (Forall2_length _ _ _ HF) as HL.
  split.
  - destruct (pushes_from C HC rs evs HF s Hb Hc) as (s' & E & Hb' & Hi' & Hw').
    exists s'. rewrite Hi in Hi', Hw'. simpl in Hi', Hw'.
    rewrite <- HL in Hi', Hw'.
    repeat split; try done.
    rewrite Hi', length_drop. lia.
  - intros n.
    pose proof (Forall2_take _ _ _ n HF) as HFn.
    pose proof (Forall2_length _ _ _ HFn) as HLn.
    destruct (pushes_from C HC _ _ HFn s Hb Hc) as (s' & E & Hb' & Hi' & Hw').
    exists s'. rewrite Hi in Hi', Hw'. simpl in Hi', Hw'.
    rewrite <- HLn in Hi', Hw'.
    repeat split; try done. apply Hb'.
Qed.

Lemma pushes_beyond_capacity_witness :
  let rs := [mkRaw 7 0 1 108 1; mkRaw 7 250000 1 108 2; mkRaw 8 0 1 108 0] in
  let evs := [mkInputEvent (event_timestamp (mkRaw 7 0 1 108 1)) "down" "pressed";
              mkInputEvent (event_timestamp (mkRaw 7 250000 1 108 2)) "down" "held";
              mkInputEvent (event_timestamp (mkRaw 8 0 1 108 0)) "down" "released"] in
  (∃ s', _read_stick_loop (Readable <$> rs) (new_stick 2) = (Pending, s') ∧
         items (_buffer s') = drop (length rs - 2) evs ∧
         length (items (_buffer s')) = 2%nat ∧
         warnings_log s'
           = (warnings_log (new_stick 2)
              ++ replicate (length rs - 2) (SenseStickBufferFull buffer_full_msg))%list) ∧
  (∀ n, ∃ s_n,
     _read_stick_loop (Readable <$> take n rs) (new_stick 2) = (Pending, s_n) ∧
     items (_buffer s_n) = drop (length (take n rs) - 2) (take n evs) ∧
     (length (items (_buffer s_n)) ≤ 2)%nat ∧
     warnings_log s_n
       = (warnings_log (new_stick 2)
          ++ replicate (length (take n rs) - 2) (SenseStickBufferFull buffer_full_msg))%list).
Proof.
  intros rs evs.
  apply (pushes_beyond_capacity 2 rs evs (new_stick 2)).
  - lia.
  - reflexivity.
  - reflexivity.
  - reflexivity.
  - subst rs evs. repeat constructor.
  - simpl. lia.
Defined.

(** With [max_events = 0] the statement fails: one push into the empty buffer
    leaves one event in it, more than the capacity, and emits no advisory. *)
Lemma pushes_capacity_zero_counterexample :
  let s := new_stick 0 in
  let r := mkRaw 7 0 EV_KEY KEY_DOWN STATE_PRESS in
  let e := mkInputEvent (event_timestamp r) "down" "pressed" in
  maxsize (_buffer s) = Z.of_nat 0 ∧ items (_buffer s) = [] ∧
  parses_to r e ∧ (0 < length [r])%nat ∧
  ∃ s', _read_stick_loop (Readable <$> [r]) s = (Pending, s') ∧
        items (_buffer s') = [e] ∧ warnings_log s' = [] ∧
        items (_buffer s') ≠ drop (length [r] - 0) [e] ∧
        ¬ (length (items (_buffer s')) ≤ 0)%nat ∧
        warnings_log s'
          ≠ (warnings_log s
             ++ replicate (length [r] - 0) (SenseStickBufferFull buffer_full_msg))%list.
Proof.
  intros s r e. split; [reflexivity|]. split; [reflexivity|].
  split; [by repeat split|]. split; [simpl; lia|].
  eexists. split; [reflexivity|]. simpl.
  repeat split; try done. lia.
Qed.

(** ** [rotate] and the reader *)

(** C4 (the code departs from the claim). The reader never consults
    [_rotate]: whatever value the attribute holds, a record gives the same
    outcome and the same buffer, so a record read while [rotate] is 90, 180
    or 270 carries the direction it carries while [rotate] is 0; with
    [rotate = 90] the code [KEY_UP] is still delivered as up. *)
Theorem reader_ignores_rotate (rec : raw_event) (s : SenseStick) (r : option Z) :
  fst (_read_stick_record rec (with_rotate r s)) = fst (_read_stick_record rec s) ∧
  snd (_read_stick_record rec (with_rotate r s))
    = with_rotate r (snd (_read_stick_record rec s)) ∧
  (∀ v, v ∈ [0; 90; 180; 270] →
     items (_buffer (snd ((_set_rotate v ;;; _read_stick_record (mkRaw 10 0 EV_KEY KEY_UP STATE_PRESS))
                            (new_stick 100))))
     = [mkInputEvent (event_timestamp (mkRaw 10 0 EV_KEY KEY_UP STATE_PRESS))
          "up" "pressed"]).
Proof.
  assert (_read_stick_record rec (with_rotate r s)
          = (fst (_read_stick_record rec s),
             with_rotate r (snd (_read_stick_record rec s)))) as E.
  { unfold _read_stick_record.
    destruct (type rec =? EV_KEY); [|done].
    rewrite !overflow_then. unfold after_overflow. simpl.
    destruct (Queue_full (_buffer s)); unfold bind, dict_getitem;
      destruct (direction_table !! code rec); simpl; try done;
      destruct (action_table !! value rec); simpl; try done;
      unfold buffer_put; simpl;
      match goal with |- context [if ?b then _ else _] => by destruct b end. }
  rewrite E. split; [done|]. split; [done|].
  intros v Hv. repeat (apply elem_of_cons in Hv as [->|Hv]; [reflexivity|]).
  by apply elem_of_nil in Hv.
Qed.

Lemma reader_ignores_rotate_witness :
  items (_buffer (snd ((_set_rotate 90 ;;; _read_stick_record (mkRaw 10 0 EV_KEY KEY_UP STATE_PRESS))
                         (new_stick 100))))
  = [mkInputEvent (event_timestamp (mkRaw 10 0 EV_KEY KEY_UP STATE_PRESS))
       "up" "pressed"].
Proof.
  destruct (reader_ignores_rotate (mkRaw 10 0 EV_KEY KEY_UP STATE_PRESS)
              (new_stick 100) (Some 90)) as (_ & _ & H).
  apply H. set_solver.
Defined.

(** ** The dispatch loop *)

(** [read] with a timeout that is not negative, on an empty buffer: the
    [queue.Empty] of the timed-out [get] is caught and the call returns
    [None]. *)
Lemma read_timeout_empty (t : Q) (s : SenseStick) :
  QArith_base.Qle (QArith_base.inject_Z 0) t → items (_buffer s) = [] →
  fst (read (Some t) s) = Ok None ∧
  _buffer (snd (read (Some t) s)) = _buffer s.
Proof.
  intros Ht Hi. apply QArith_base.Qle_bool_iff in Ht.
  unfold read, bind, gets, when, try_except, buffer_get, warnings_warn, modify, ret.
  destruct (bool_decide (_callbacks_thread s ≠ None)); simpl; rewrite Ht, Hi; done.
Qed.

(** The same call with a negative timeout raises [ValueError]. *)
Lemma read_negative_timeout (t : Q) (s : SenseStick) :
  QArith_base.Qlt t (QArith_base.inject_Z 0) →
  fst (read (Some t) s)
  = Raise (ValueError "'timeout' must be a non-negative number").
Proof.
  intros Ht.
  assert (QArith_base.Qle_bool (QArith_base.inject_Z 0) t = false) as E.
  { apply not_true_is_false. intros H. apply QArith_base.Qle_bool_iff in H.
    by apply QArith_base.Qle_not_lt in H. }
  unfold read, bind, gets, when, try_except, buffer_get, warnings_warn, modify, ret.
  destruct (bool_decide (_callbacks_thread s ≠ None)); simpl; rewrite E; done.
Qed.

(** One turn of the dispatch loop on an empty buffer. *)
Lemma run_callbacks_iter_empty (cb : option pyval) (s : SenseStick) :
  items (_buffer s) = [] → _run_callbacks_iter cb s = (Raise Empty, s).
Proof.
  intros Hi. unfold _run_callbacks_iter, bind, buffer_get. simpl. by rewrite Hi.
Qed.

(** One turn of the dispatch loop on an event whose direction has no
    handler: the event is taken from the buffer, the [KeyError] is swallowed
    and [cb] keeps what the previous turns left in it; unbound, the call
    raises; bound, the handler of an earlier event runs on this one. *)
Lemma run_callbacks_iter_miss (cb : option pyval) (s : SenseStick)
    (e : InputEvent) (rest : list InputEvent) :
  items (_buffer s) = e :: rest → _callbacks s !! direction e = None →
  _run_callbacks_iter cb s =
    match cb with
    | None => (Raise (UnboundLocalError "cb"), popped s)
    | Some f => (call f e ;;; ret cb) (popped s)
    end.
Proof.
  intros Hi Hm. unfold _run_callbacks_iter, bind at 1, buffer_get. simpl.
  rewrite Hi. unfold popped. rewrite Hi. simpl.
  unfold bind at 1, try_except, bind at 1, callbacks_getitem, bind at 1, gets.
  simpl. rewrite Hm. simpl. by destruct cb.
Qed.

(** One turn on an event whose direction has the handler [f]. *)
Lemma run_callbacks_iter_hit (cb : option pyval) (s : SenseStick)
    (e : InputEvent) (rest : list InputEvent) (f : pyval) :
  items (_buffer s) = e :: rest → _callbacks s !! direction e = Some f →
  _run_callbacks_iter cb s = (call f e ;;; ret (Some f)) (popped s).
Proof.
  intros Hi Hm. unfold _run_callbacks_iter, bind at 1, buffer_get. simpl.
  rewrite Hi. unfold popped. rewrite Hi. simpl.
  unfold bind at 1, try_except, bind at 1, callbacks_getitem, bind at 1, gets.
  simpl. rewrite Hm. simpl. done.
Qed.

(** C1 (the code departs from the claim). While neither shutdown flag is
    set, a turn of the dispatch loop that finds the buffer empty ends the
    loop with [queue.Empty]: [_run_callbacks] calls [get(timeout=0.1)]
    without the [except Empty] that [read] has. *)
Theorem run_callbacks_empty_raises (n : nat) (s : SenseStick) :
  _callbacks_close s = false → _closing s = false →
  items (_buffer s) = [] →
  _run_callbacks (S n) s = (Raise Empty, s).
Proof.
  intros H1 H2 Hi. unfold _run_callbacks. simpl.
  unfold bind at 1, gets. simpl. rewrite H1, H2. simpl.
  by rewrite (bind_Raise _ _ _ _ _ (run_callbacks_iter_empty None s Hi)).
Qed.

Lemma run_callbacks_empty_raises_witness :
  let s := snd (when_up_setter (PyFunc "on_up") (new_stick 100)) in
  _callbacks s !! "up" = Some (PyFunc "on_up") ∧
  _run_callbacks 1 s = (Raise Empty, s).
Proof.
  intros s. split; [reflexivity|].
  apply (run_callbacks_empty_raises 0 s); reflexivity.
Defined.

(** C2 (the code departs from the claim). An event whose direction has no
    handler is taken from the buffer, but it is not dropped quietly: when it
    is the first event of the dispatch thread, [cb] is unbound and the loop
    ends with [UnboundLocalError]; when an earlier event had a handler [f],
    [cb] still holds [f] and [f] is invoked on the event. *)
Theorem run_callbacks_miss (s : SenseStick) (e0 e : InputEvent)
    (rest : list InputEvent) (f : string) :
  _callbacks_close s = false → _closing s = false →
  _callbacks s !! direction e = None →
  (∀ n, items (_buffer s) = e :: rest →
     _run_callbacks (S n) s = (Raise (UnboundLocalError "cb"), popped s)) ∧
  (items (_buffer s) = e0 :: e :: rest →
   _callbacks s !! direction e0 = Some (PyFunc f) →
     ∃ s', _run_callbacks 2 s = (Pending, s') ∧
           calls s' = (calls s ++ [(f, e0); (f, e)])%list ∧
           items (_buffer s') = rest).
Proof.
  intros H1 H2 Hm. split.
  - intros n Hi. unfold _run_callbacks. simpl.
    unfold bind at 1, gets. simpl. rewrite H1, H2. simpl.
    by rewrite (bind_Raise _ _ _ _ _ (run_callbacks_iter_miss None s e rest Hi Hm)).
  - intros Hi Hh. unfold _run_callbacks. simpl.
    unfold bind at 1, gets. simpl. rewrite H1, H2. simpl.
    pose proof (run_callbacks_iter_hit None s e0 (e :: rest) _ Hi Hh) as T1.
    set (s1 := with_calls (calls s ++ [(f, e0)]) (popped s)).
    assert (_run_callbacks_iter None s = (Ok (Some (PyFunc f)), s1)) as T1'
      by (rewrite T1; reflexivity).
    rewrite (bind_Ok _ _ _ _ _ T1').
    assert (items (_buffer s1) = e :: rest) as Hi1
      by (subst s1; unfold popped; simpl; by rewrite Hi).
    unfold bind at 1, gets. simpl. rewrite H1, H2. simpl.
    pose proof (run_callbacks_iter_miss (Some (PyFunc f)) s1 e rest Hi1 Hm) as T2.
    set (s2 := with_calls (calls s1 ++ [(f, e)]) (popped s1)).
    assert (_run_callbacks_iter (Some (PyFunc f)) s1 = (Ok (Some (PyFunc f)), s2))
      as T2' by (rewrite T2; reflexivity).
    rewrite (bind_Ok _ _ _ _ _ T2').
    exists s2. unfold bind, gets. simpl. rewrite H1, H2. simpl.
    split; [done|]. split.
    + by rewrite <- app_assoc.
    + by rewrite Hi.
Qed.

Lemma run_callbacks_miss_witness :
  let registered :=
    snd (assign_all [(prop_when_up, PyFunc "on_up"); (prop_when_down, PyFunc "on_down")]
           (new_stick 100)) in
  let up := mkInputEvent (event_timestamp (mkRaw 10 0 EV_KEY KEY_UP STATE_PRESS))
              "up" "pressed" in
  let left := mkInputEvent (event_timestamp (mkRaw 11 0 EV_KEY KEY_LEFT STATE_PRESS))
                "left" "pressed" in
  let s1 := snd (_read_stick_loop
                   [Readable (mkRaw 11 0 EV_KEY KEY_LEFT STATE_PRESS)] registered) in
  let s2 := snd (_read_stick_loop
                   [Readable (mkRaw 10 0 EV_KEY KEY_UP STATE_PRESS);
                    Readable (mkRaw 11 0 EV_KEY KEY_LEFT STATE_PRESS)] registered) in
  _run_callbacks 1 s1 = (Raise (UnboundLocalError "cb"), popped s1) ∧
  ∃ s', _run_callbacks 2 s2 = (Pending, s') ∧
        calls s' = (calls s2 ++ [("on_up", up); ("on_up", left)])%list ∧
        items (_buffer s') = [].
Proof.
  intros registered up left s1 s2. split.
  - apply (run_callbacks_miss s1 left left [] "on_up"); reflexivity.
  - apply (run_callbacks_miss s2 up left [] "on_up"); reflexivity.
Defined.

(** ** The life of the dispatch thread *)

Lemma new_stick_lifecycle_inv (max_events : Z) : lifecycle_inv (new_stick max_events).
Proof.
  repeat split; try done.
  intros t Ht. apply list_elem_of_singleton in Ht as ->. simpl. lia.
Qed.

Lemma filter_dispatch_remove (t : Thread) (l : list Thread) :
  filter (λ u, is_dispatch u = true) (filter (λ u, u ≠ t) l)
  = filter (λ u, u ≠ t) (filter (λ u, is_dispatch u = true) l).
Proof.
  induction l as [|x l IH]; [done|].
  rewrite !filter_cons.
  repeat (case_decide; rewrite ?filter_cons); try done; by rewrite IH.
Qed.

(** [_start_stop_callbacks] brings the handle in line with the registry. *)
Lemma start_stop_callbacks_spec (s : SenseStick) :
  handle_inv s →
  ∃ s', _start_stop_callbacks s = (Ok tt, s') ∧
        lifecycle_inv s' ∧ _callbacks s' = _callbacks s ∧
        match _callbacks_thread s with
        | None =>
            (_callbacks s = ∅ → s' = s) ∧
            (_callbacks s ≠ ∅ →
             ∃ t, _callbacks_thread s' = Some t ∧ (t ∉ threads s) ∧
                  threads s' = (threads s ++ [t])%list ∧
                  target t = target_run_callbacks ∧ _callbacks_close s' = false)
        | Some t =>
            (_callbacks s ≠ ∅ → s' = s) ∧
            (_callbacks s = ∅ →
             _callbacks_thread s' = None ∧ _callbacks_close s' = true ∧
             threads s' = filter (λ u, u ≠ t) (threads s))
        end.
Proof.
  intros (Hc & Hd & Hf).
  unfold _start_stop_callbacks, bind, gets.
  destruct (_callbacks_thread s) as [t|] eqn:Et.
  - rewrite andb_false_r. simpl.
    assert (t ∈ threads s ∧ target t = target_run_callbacks) as [Hin Htg].
    { assert (t ∈ dispatch_threads s) as Hin by (rewrite Hd; simpl; set_solver).
      apply list_elem_of_filter in Hin as [Hdis Hin]. split; [done|].
      unfold is_dispatch in Hdis. by destruct (target t). }
    case_bool_decide as Em.
    + unfold modify, Thread_join. simpl.
      rewrite bool_decide_true by done. rewrite Htg. simpl.
      eexists. split; [reflexivity|].
      unfold lifecycle_inv, handle_inv, dispatch_threads in *. simpl.
      repeat split; try done.
      * rewrite filter_dispatch_remove, Hd. simpl.
        rewrite filter_cons, decide_False; [done|]. intros H. by apply H.
      * intros u Hu. apply list_elem_of_filter in Hu as [_ Hu]. by apply Hf.
    + exists s. unfold ret. repeat split; rewrite ?Et; try done.
  - case_bool_decide as Em; simpl.
    + unfold modify, Thread_start. simpl.
      eexists. split; [reflexivity|].
      unfold lifecycle_inv, handle_inv, dispatch_threads in *. simpl.
      repeat split; try done.
      * rewrite filter_app, Hd. simpl. by rewrite filter_cons, decide_True.
      * intros u Hu. apply elem_of_app in Hu as [Hu|Hu].
        -- specialize (Hf u Hu). lia.
        -- apply list_elem_of_singleton in Hu as ->. simpl. lia.
      * intros _. eexists. repeat split; try done.
        intros Hin. specialize (Hf _ Hin). simpl in Hf. lia.
    + exists s. unfold ret.
      repeat split; rewrite ?Et; try done.
Qed.

Lemma when_set_spec (name : string) (v : pyval) (s : SenseStick) :
  lifecycle_inv s →
  ∃ s', when_set name v s = (Ok tt, s') ∧ lifecycle_inv s' ∧
        _callbacks s'
          = (if truthy v then <[name := v]> (_callbacks s)
             else delete name (_callbacks s)) ∧
        (_callbacks s = ∅ → _callbacks s' ≠ ∅ →
           ∃ t, _callbacks_thread s' = Some t ∧ dispatch_threads s' = [t] ∧
                (t ∉ threads s) ∧ _callbacks_close s' = false) ∧
        (_callbacks s ≠ ∅ → _callbacks s' = ∅ →
           ∃ t, _callbacks_thread s = Some t ∧ (t ∉ threads s') ∧
                _callbacks_thread s' = None ∧ dispatch_threads s' = [] ∧
                _callbacks_close s' = true) ∧
        (_callbacks s ≠ ∅ → _callbacks s' ≠ ∅ →
           threads s' = threads s ∧ _callbacks_thread s' = _callbacks_thread s).
Proof.
  intros [Hh Hiff].
  set (m' := if truthy v then <[name := v]> (_callbacks s)
             else delete name (_callbacks s)).
  set (s1 := with_callbacks m' s).
  assert (handle_inv s1) as Hh1 by exact Hh.
  destruct (start_stop_callbacks_spec s1 Hh1) as (s' & E & Hinv & Hcb & Hcase).
  exists s'. split.
  { unfold when_set, bind, modify. subst s1 m'. by destruct (truthy v). }
  split; [done|]. split; [done|].
  change (_callbacks_thread s1) with (_callbacks_thread s) in Hcase.
  change (_callbacks s1) with m' in Hcase, Hcb.
  change (threads s1) with (threads s) in Hcase.
  rewrite Hcb. destruct Hinv as [(_ & Hd' & _) _].
  destruct (_callbacks_thread s) as [t|] eqn:Et; destruct Hcase as [Hsame Hchg].
  - assert (_callbacks s ≠ ∅) as Hne by (intros H; apply Hiff in H; done).
    split; [by intros He|]. split.
    + intros _ Hm. destruct (Hchg Hm) as (Hn & Hcl & Hth).
      exists t. rewrite Hd', Hn, Hth. repeat split; try done.
      intros Hin. apply list_elem_of_filter in Hin as [Hin _]. done.
    + intros _ Hm. by rewrite (Hsame Hm).
  - assert (_callbacks s = ∅) as He by by apply Hiff.
    split; [|by split].
    intros _ Hm. destruct (Hchg Hm) as (t & Hn & Hfresh & Hth & Htg & Hcl).
    exists t. rewrite Hd', Hn. done.
Qed.

Lemma assign_spec (p : when_property) (v : pyval) (s : SenseStick) :
  lifecycle_inv s →
  ∃ s', assign p v s = (Ok tt, s') ∧ lifecycle_inv s' ∧
        (_callbacks s = ∅ → _callbacks s' ≠ ∅ →
           ∃ t, _callbacks_thread s' = Some t ∧ dispatch_threads s' = [t] ∧
                (t ∉ threads s) ∧ _callbacks_close s' = false) ∧
        (_callbacks s ≠ ∅ → _callbacks s' = ∅ →
           ∃ t, _callbacks_thread s = Some t ∧ (t ∉ threads s') ∧
                _callbacks_thread s' = None ∧ dispatch_threads s' = [] ∧
                _callbacks_close s' = true) ∧
        (_callbacks s ≠ ∅ → _callbacks s' ≠ ∅ →
           threads s' = threads s ∧ _callbacks_thread s' = _callbacks_thread s).
Proof.
  intros Hinv.
  assert (∃ name, assign p v = when_set name v) as [name ->]
    by (destruct p; eexists; reflexivity).
  destruct (when_set_spec name v s Hinv) as (s' & E & Hinv' & _ & H).
  by exists s'.
Qed.

Lemma assign_all_spec (ops : list (when_property * pyval)) (s : SenseStick) :
  lifecycle_inv s →
  ∃ s', assign_all ops s = (Ok tt, s') ∧ lifecycle_inv s'.
Proof.
  revert s. induction ops as [|[p v] ops IH]; intros s Hinv.
  - by exists s.
  - destruct (assign_spec p v s Hinv) as (s1 & E1 & Hinv1 & _).
    destruct (IH s1 Hinv1) as (s' & E' & Hinv').
    exists s'. simpl. by rewrite (bind_Ok _ _ _ _ _ E1).
Qed.



(** ** [close] *)

Lemma filter_ne_not_elem (t : Thread) (l : list Thread) :
  t ∉ l → filter (λ u, u ≠ t) l = l.
Proof.
  induction l as [|x l IH]; [done|].
  intros Hn. apply not_elem_of_cons in Hn as [Hx Hl].
  rewrite filter_cons_True by congruence. by rewrite IH.
Qed.

(** Once [_closing] is set, [join] returns for either thread, and the thread
    is no longer running. *)
Lemma Thread_join_closing (t : Thread) (s : SenseStick) :
  _closing s = true →
  ∃ s', Thread_join t s = (Ok tt, s') ∧
        _closing s' = true ∧ _read_thread s' = _read_thread s ∧
        _callbacks_thread s' = _callbacks_thread s ∧
        threads s' = filter (λ u, u ≠ t) (threads s).
Proof.
  intros Hc. unfold Thread_join.
  assert (stop_requested (target t) s = true) as ->.
  { unfold stop_requested. rewrite Hc. destruct (target t); [done|apply orb_true_r]. }
  case_bool_decide as Hin.
  - eexists. split; [reflexivity|]. by destruct (target t).
  - exists s. repeat split; try done.
    by rewrite filter_ne_not_elem.
Qed.

Lemma close_first (s : SenseStick) (t : Thread) :
  _read_thread s = Some t →
  ∃ s', close s = (Ok tt, s') ∧
        _closing s' = true ∧ _read_thread s' = None ∧ _callbacks_thread s' = None ∧
        (t ∉ threads s') ∧ (∀ c, _callbacks_thread s = Some c → c ∉ threads s').
Proof.
  intros Hr. unfold close. unfold bind at 1, gets. rewrite Hr.
  unfold bind at 1, modify at 1.
  destruct (Thread_join_closing t (with_closing true s) eq_refl)
    as (s1 & E1 & Hc1 & Hr1 & Hh1 & Ht1).
  rewrite (bind_Ok _ _ _ _ _ E1).
  unfold bind at 1, gets. simpl in Hh1. rewrite Hh1.
  destruct (_callbacks_thread s) as [c|].
  - destruct (Thread_join_closing c s1 Hc1) as (s2 & E2 & Hc2 & Hr2 & Hh2 & Ht2).
    rewrite (bind_Ok _ _ _ _ _ E2).
    eexists. split; [reflexivity|]. simpl. rewrite Hc2, Ht2, Ht1.
    repeat split; try done.
    + intros Hin. apply list_elem_of_filter in Hin as [_ Hin].
      apply list_elem_of_filter in Hin as [Hin _]. done.
    + intros c' [= <-] Hin. apply list_elem_of_filter in Hin as [Hin _]. done.
  - eexists. split; [reflexivity|]. simpl. rewrite Hc1, Ht1.
    repeat split; try done.
    intros Hin. apply list_elem_of_filter in Hin as [Hin _]. done.
Qed.

Lemma close_again (s : SenseStick) :
  _read_thread s = None → close s = (Ok tt, s).
Proof. intros Hr. unfold close, bind, gets. by rewrite Hr. Qed.

(** C8. [close] returns without error from every state.  The first call (the
    reader handle is set) sets [_closing], joins the reader thread and the
    dispatch thread if its handle is set, and clears both handles, so that
    neither thread is among the running ones; a call that finds the reader
    handle cleared changes nothing, so [close] after [close] is [close]. *)
Theorem close_idempotent (s : SenseStick) :
  fst (close s) = Ok tt ∧
  close (snd (close s)) = (Ok tt, snd (close s)) ∧
  (close ;;; close) s = close s ∧
  (_read_thread s = None → close s = (Ok tt, s)) ∧
  (∀ t, _read_thread s = Some t →
     _closing (snd (close s)) = true ∧
     _read_thread (snd (close s)) = None ∧
     _callbacks_thread (snd (close s)) = None ∧
     (t ∉ threads (snd (close s))) ∧
     (∀ c, _callbacks_thread s = Some c → c ∉ threads (snd (close s)))).
Proof.
  assert (∃ s', close s = (Ok tt, s') ∧ _read_thread s' = None) as (s' & E & Hn).
  { destruct (_read_thread s) as [t|] eqn:Hr.
    - destruct (close_first s t Hr) as (s' & E & _ & Hn & _). by exists s'.
    - exists s. split; [by apply close_again|done]. }
  split; [by rewrite E|].
  split; [rewrite E; by apply close_again|].
  split; [rewrite (bind_Ok _ _ _ _ _ E), E; by apply close_again|].
  split; [apply close_again|].
  intros t Hr.
  destruct (close_first s t Hr) as (s1 & E1 & H1 & H2 & H3 & H4 & H5).
  rewrite E1. done.
Qed.

Lemma close_idempotent_witness :
  let s := snd (when_down_setter (PyFunc "on_down") (new_stick 100)) in
  _callbacks_thread s = Some (mkThread 1 target_run_callbacks) ∧
  close (new_stick 100 : SenseStick)
    = (Ok tt, with_stick_file_open false
                (with_threads [] 1
                   (with_read_thread None (with_closing true (new_stick 100))))) ∧
  (_closing (snd (close s)) = true ∧
   _read_thread (snd (close s)) = None ∧
   _callbacks_thread (snd (close s)) = None ∧
   (mkThread 0 target_read_stick ∉ threads (snd (close s))) ∧
   (∀ c, _callbacks_thread s = Some c → c ∉ threads (snd (close s)))) ∧
  close (snd (close s)) = (Ok tt, snd (close s)).
Proof.
  intros s. split; [reflexivity|]. split; [reflexivity|].
  destruct (close_idempotent s) as (_ & H2 & _ & _ & H5).
  split; [|exact H2].
  apply (H5 (mkThread 0 target_read_stick)). reflexivity.
Defined.

(** ** The facade's [rotation] *)

Section FacadeRotation.
Context {S : Type} `{ScreenRotation S}.

(** When the screen rejects the value, the stick is not reached. *)
Lemma facade_rotation_screen_raises (v : pyval) (hat : SenseHAT S) (e : exn) (scr' : S) :
  screen_set_rotation v (_screen hat) = (Raise e, scr') →
  SenseHAT_rotation_setter v hat = (Raise e, mkHAT scr' (_stick hat)).
Proof. intros E. unfold SenseHAT_rotation_setter. by rewrite E. Qed.

End FacadeRotation.


(** * Further properties of the driver *)

(** ** Locating the device *)

Lemma lstrip_spaces (ws s : string) :
  all_space ws = true → lstrip (ws +:+ s) = lstrip s.
Proof.
  induction ws as [|c ws IH]; [done|]. simpl.
  intros [Hc Hws]%andb_true_iff. rewrite Hc. by apply IH.
Qed.

Lemma lstrip_no_space (c : Ascii.ascii) (r : string) :
  is_space c = false → lstrip (String c r) = String c r.
Proof. intros Hc. simpl. by rewrite Hc. Qed.

Lemma rstrip_spaces (ws : string) : all_space ws = true → rstrip ws = "".
Proof.
  induction ws as [|c ws IH]; [done|]. simpl.
  intros [Hc Hws]%andb_true_iff. by rewrite (IH Hws), Hc.
Qed.

Lemma rstrip_app_spaces (s ws : string) :
  all_space ws = true → rstrip (s +:+ ws) = rstrip s.
Proof.
  intros Hws. induction s as [|c s IH]; simpl.
  - by apply rstrip_spaces.
  - by rewrite IH.
Qed.

Lemma rstrip_no_space (s : string) (c : Ascii.ascii) :
  last_char s = Some c → is_space c = false → rstrip s = s.
Proof.
  intros Hl Hc. induction s as [|a s IH]; [done|].
  destruct s as [|b s].
  - simpl in *. injection Hl as ->. by rewrite Hc.
  - specialize (IH Hl). change (rstrip (String a (String b s)))
      with (match rstrip (String b s) with
            | EmptyString => if is_space a then EmptyString else String a EmptyString
            | r' => String a r'
            end).
    by rewrite IH.
Qed.

(** [strip] removes the white space around a text that neither starts nor
    ends with white space, and nothing else. *)
Lemma strip_padded (ws1 ws2 : string) (a z : Ascii.ascii) (r : string) :
  all_space ws1 = true → all_space ws2 = true →
  is_space a = false → last_char (String a r) = Some z → is_space z = false →
  strip (ws1 +:+ String a r +:+ ws2) = String a r.
Proof.
  intros H1 H2 Ha Hl Hz. unfold strip.
  rewrite lstrip_spaces by done.
  change (String a r +:+ ws2) with (String a (r +:+ ws2)).
  rewrite lstrip_no_space by done.
  change (String a (r +:+ ws2)) with (String a r +:+ ws2).
  rewrite rstrip_app_spaces by done.
  by apply (rstrip_no_space _ z).
Qed.

Lemma stick_device_passed_over (pre rest : list (string * name_read)) :
  Forall passed_over pre → _stick_device (pre ++ rest)%list = _stick_device rest.
Proof.
  induction 1 as [|[evdev [c|e]] pre Hx Hpre IH]; [done|..];
    unfold passed_over in Hx; simpl in *.
  - apply String.eqb_neq in Hx. by rewrite Hx.
  - subst e. by rewrite Z.eqb_refl.
Qed.

(** The device list splits, in one way only, into the entries passed over
    and the first entry that is not. *)
Lemma stick_device_split (evdevs : list (string * name_read)) :
  Forall passed_over evdevs ∨
  ∃ pre x post, evdevs = (pre ++ x :: post)%list ∧ Forall passed_over pre ∧ ¬ passed_over x.
Proof.
  induction evdevs as [|x evdevs IH]; [by left|].
  assert (Decision (passed_over x)) as [Hx|Hx].
  { unfold passed_over. destruct (x.2); apply _. }
  - destruct IH as [IH|(pre & y & post & -> & Hpre & Hy)].
    + left. by constructor.
    + right. exists (x :: pre), y, post. repeat split; [|done]. by constructor.
  - right. exists [], x, evdevs. repeat split; [constructor|done].
Qed.





(** X3. A name file that holds the joystick's name with white space around
    it (the kernel ends the name with a newline) is recognised: the entry is
    taken, whatever follows it in the list. *)
Theorem stick_device_padded_name (ws1 ws2 evdev : string)
    (rest : list (string * name_read)) :
  all_space ws1 = true → all_space ws2 = true →
  _stick_device ((evdev, NameContent (ws1 +:+ SENSE_HAT_EVDEV_NAME +:+ ws2)) :: rest)
  = Ok ("/dev/input/" +:+ evdev).
Proof.
  intros H1 H2. simpl.
  assert (strip (ws1 +:+ SENSE_HAT_EVDEV_NAME +:+ ws2) = SENSE_HAT_EVDEV_NAME) as ->.
  { unfold SENSE_HAT_EVDEV_NAME.
    eapply (strip_padded ws1 ws2); [done|done|reflexivity..]. }
  by rewrite String.eqb_refl.
Qed.

Lemma stick_device_padded_name_witness :
  _stick_device [("event4", NameContent "Raspberry Pi Sense HAT Joystick
")] = Ok "/dev/input/event4".
Proof.
  apply (stick_device_padded_name "" "
" "event4" []); reflexivity.
Defined.

(** ** [read] and iteration *)

Lemma bind_Pending {A B} (m : M A) (k : A → M B) s s' :
  m s = (Pending, s') → bind m k s = (Pending, s').
Proof. intros E. unfold bind. by rewrite E. Qed.

Lemma read_warnings (timeout : option Q) (s : SenseStick) :
  warnings_log (snd (read timeout s)) = (warnings_log s ++ read_advisory s)%list ∧
  _callbacks_thread (snd (read timeout s)) = _callbacks_thread s ∧
  maxsize (_buffer (snd (read timeout s))) = maxsize (_buffer s).
Proof.
  unfold read, read_advisory, bind, gets, when, try_except, buffer_get,
    warnings_warn, modify, ret.
  destruct (bool_decide (_callbacks_thread s ≠ None)); simpl;
    destruct timeout as [t|]; simpl;
    try destruct (QArith_base.Qle_bool (QArith_base.inject_Z 0) t); simpl;
    destruct (items (_buffer s)); simpl; by rewrite ?app_nil_r.
Qed.

Lemma read_result (timeout : option Q) (s : SenseStick) :
  match timeout with
  | None =>
      match items (_buffer s) with
      | [] => fst (read None s) = Pending ∧
              items (_buffer (snd (read None s))) = []
      | e :: rest => fst (read None s) = Ok (Some e) ∧
                     items (_buffer (snd (read None s))) = rest
      end
  | Some t =>
      if QArith_base.Qle_bool (QArith_base.inject_Z 0) t
      then fst (read (Some t) s) = Ok (head (items (_buffer s))) ∧
           items (_buffer (snd (read (Some t) s))) = tail (items (_buffer s))
      else fst (read (Some t) s)
             = Raise (ValueError "'timeout' must be a non-negative number") ∧
           items (_buffer (snd (read (Some t) s))) = items (_buffer s)
  end.
Proof.
  unfold read, bind, gets, when, try_except, buffer_get, warnings_warn, modify, ret.
  destruct (bool_decide (_callbacks_thread s ≠ None)); simpl;
    destruct timeout as [t|]; simpl;
    try destruct (QArith_base.Qle_bool (QArith_base.inject_Z 0) t); simpl;
    destruct (items (_buffer s)) eqn:E; simpl; rewrite ?E; done.
Qed.



Lemma iter_step (n : nat) (s : SenseStick) (e : InputEvent) (rest : list InputEvent) :
  items (_buffer s) = e :: rest →
  ∃ s1, read None s = (Ok (Some e), s1) ∧ items (_buffer s1) = rest.
Proof.
  intros Hi. pose proof (read_result None s) as H. simpl in H. rewrite Hi in H.
  destruct (read None s) as [r s1]. simpl in H. destruct H as [-> H].
  by exists s1.
Qed.

Lemma iter_take_drop (n : nat) (s : SenseStick) :
  ((n ≤ length (items (_buffer s)))%nat →
     fst (__iter__ n s) = Ok (Some <$> take n (items (_buffer s))) ∧
     items (_buffer (snd (__iter__ n s))) = drop n (items (_buffer s))) ∧
  ((length (items (_buffer s)) < n)%nat →
     fst (__iter__ n s) = Pending ∧
     items (_buffer (snd (__iter__ n s))) = []).
Proof.
  revert s. induction n as [|n IH]; intros s.
  - split; [done|]. intros H. lia.
  - destruct (items (_buffer s)) as [|e rest] eqn:Hi.
    + split; [simpl; lia|]. intros _.
      pose proof (read_result None s) as H. simpl in H. rewrite Hi in H.
      simpl. unfold bind. destruct (read None s) as [r s1]. simpl in H.
      by destruct H as [-> H].
    + destruct (iter_step n s e rest Hi) as (s1 & E1 & Hi1).
      destruct (IH s1) as [IHle IHgt]. rewrite Hi1 in IHle, IHgt.
      simpl. rewrite (bind_Ok _ _ _ _ _ E1).
      destruct (__iter__ n s1) as [r s2] eqn:E2. simpl in IHle, IHgt.
      split; intros Hn.
      * destruct (IHle ltac:(lia)) as [-> Hs2].
        rewrite (bind_Ok _ _ _ _ _ E2). simpl. by rewrite Hs2.
      * destruct (IHgt ltac:(lia)) as [-> Hs2].
        by rewrite (bind_Pending _ _ _ _ E2).
Qed.

(** X5. Iterating over the stick yields the buffered events oldest first:
    the first [n] items of the iteration are the first [n] events of the
    buffer, which leave it; none of them is [None].  Asked for more than the
    buffer holds, the iteration takes what is there and then waits: it
    neither ends nor yields [None]. *)
Theorem iter_yields_in_order (n : nat) (s : SenseStick) :
  ((n ≤ length (items (_buffer s)))%nat →
     fst (__iter__ n s) = Ok (Some <$> take n (items (_buffer s))) ∧
     items (_buffer (snd (__iter__ n s))) = drop n (items (_buffer s)) ∧
     Forall (λ x, x ≠ None) (Some <$> take n (items (_buffer s)))) ∧
  ((length (items (_buffer s)) < n)%nat →
     fst (__iter__ n s) = Pending ∧
     items (_buffer (snd (__iter__ n s))) = []).
Proof.
  destruct (iter_take_drop n s) as [Hle Hgt]. split; [|exact Hgt].
  intros Hn. destruct (Hle Hn) as [H1 H2].
  split; [done|]. split; [done|].
  apply Forall_fmap, Forall_forall. by intros x _.
Qed.

Lemma iter_yields_in_order_witness :
  let r1 := mkRaw 3 0 EV_KEY KEY_UP STATE_PRESS in
  let r2 := mkRaw 3 500000 EV_KEY KEY_UP STATE_RELEASE in
  let s := snd (_read_stick_loop [Readable r1; Readable r2] (new_stick 100)) in
  (fst (__iter__ 2 s)
     = Ok [Some (mkInputEvent (event_timestamp r1) "up" "pressed");
           Some (mkInputEvent (event_timestamp r2) "up" "released")] ∧
   items (_buffer (snd (__iter__ 2 s))) = []) ∧
  (fst (__iter__ 3 s) = Pending ∧ items (_buffer (snd (__iter__ 3 s))) = []).
Proof.
  intros r1 r2 s. split.
  - destruct (iter_yields_in_order 2 s) as [H _].
    destruct H as (H1 & H2 & _); [subst s r1 r2; vm_compute; lia|].
    by split.
  - apply (iter_yields_in_order 3 s). subst s r1 r2. vm_compute. lia.
Defined.

(** ** The [when_*] properties *)

Lemma assign_when_set (p : when_property) (v : pyval) :
  assign p v = when_set (key_of p) v.
Proof. by destruct p. Qed.

Lemma fetch_when_get (p : when_property) : fetch p = when_get (key_of p).
Proof. by destruct p. Qed.

Lemma key_of_inj (p q : when_property) : key_of p = key_of q → p = q.
Proof. by destruct p, q. Qed.

Lemma when_set_callbacks (name : string) (v : pyval) (s : SenseStick) :
  _callbacks (snd (when_set name v s))
  = if truthy v then <[name := v]> (_callbacks s) else delete name (_callbacks s).
Proof.
  unfold when_set, _start_stop_callbacks, bind, gets, modify, Thread_start,
    Thread_join, ret.
  destruct (truthy v); simpl;
    destruct (_callbacks_thread s) as [t|]; simpl;
    repeat (case_bool_decide; simpl); try done;
    destruct (stop_requested _ _); simpl; try done; by destruct (target t).
Qed.

(** X6. Assigning to a [when_*] property and reading it back: a true value
    is returned as assigned, and after a false value ([None], [0], the empty
    string) the property reads [None]; the other four properties read as
    before. *)
Theorem when_assign_fetch (p q : when_property) (v : pyval) (s : SenseStick) :
  fst (fetch p (snd (assign p v s))) = Ok (if truthy v then v else PyNone) ∧
  (q ≠ p → fst (fetch q (snd (assign p v s))) = fst (fetch q s)).
Proof.
  rewrite !fetch_when_get, assign_when_set.
  unfold when_get, bind, gets, ret. simpl. rewrite when_set_callbacks.
  split.
  - destruct (truthy v); [by rewrite lookup_insert_eq|by rewrite lookup_delete_eq].
  - intros Hne. assert (key_of p ≠ key_of q) as Hk
      by (intros Hk; apply Hne; symmetry; by apply key_of_inj).
    destruct (truthy v);
      [by rewrite lookup_insert_ne|by rewrite lookup_delete_ne].
Qed.

Lemma when_assign_fetch_witness :
  let s := snd (assign prop_when_left (PyFunc "on_left") (new_stick 100)) in
  fst (fetch prop_when_left (snd (assign prop_when_up (PyInt 0) s)))
  = fst (fetch prop_when_left s).
Proof.
  intros s.
  apply (when_assign_fetch prop_when_up prop_when_left (PyInt 0) s). discriminate.
Defined.

Lemma when_set_frame (name : string) (v : pyval) (s : SenseStick) :
  dispatch_handle_ok s →
  fst (when_set name v s) = Ok tt ∧
  _buffer (snd (when_set name v s)) = _buffer s ∧
  warnings_log (snd (when_set name v s)) = warnings_log s ∧
  calls (snd (when_set name v s)) = calls s ∧
  _rotate (snd (when_set name v s)) = _rotate s ∧
  _closing (snd (when_set name v s)) = _closing s ∧
  _read_thread (snd (when_set name v s)) = _read_thread s ∧
  stick_file_open (snd (when_set name v s)) = stick_file_open s ∧
  dispatch_handle_ok (snd (when_set name v s)).
Proof.
  intros Hok.
  unfold when_set, _start_stop_callbacks, bind, gets, modify, Thread_start,
    Thread_join, ret, dispatch_handle_ok in *.
  destruct (truthy v); simpl;
    destruct (_callbacks_thread s) as [t|] eqn:Et; simpl;
    try rewrite (Hok t eq_refl);
    repeat (case_bool_decide; simpl);
    repeat split; try done.
  all: rewrite ?Et; intros t' Ht;
    first [discriminate Ht | injection Ht as <-; first [done | by apply Hok]].
Qed.



Lemma assign_all_handle_ok (ops : list (when_property * pyval)) (s : SenseStick) :
  dispatch_handle_ok s →
  fst (assign_all ops s) = Ok tt ∧
  dispatch_handle_ok (snd (assign_all ops s)) ∧
  _buffer (snd (assign_all ops s)) = _buffer s ∧
  warnings_log (snd (assign_all ops s)) = warnings_log s ∧
  calls (snd (assign_all ops s)) = calls s.
Proof.
  revert s. induction ops as [|[p v] ops IH]; intros s Hok; [done|].
  destruct (when_set_frame (key_of p) v s Hok)
    as (E & Hb & Hw & Hc & _ & _ & _ & _ & Hok1).
  rewrite <- assign_when_set in E, Hb, Hw, Hc, Hok1.
  simpl. destruct (assign p v s) as [r s1] eqn:E1. simpl in *. subst r.
  rewrite (bind_Ok _ _ _ _ _ E1).
  destruct (IH s1 Hok1) as (E' & Hok' & Hb' & Hw' & Hc').
  repeat split; try done; congruence.
Qed.

(** X8. After any sequence of assignments to the [when_*] properties on a new
    object, a call of [read] emits the advisory "read called while when_*
    callbacks are assigned" exactly when a handler is registered, once per
    call, whatever the timeout and whether or not an event is there. *)
Theorem read_advisory_iff_registered (max_events : Z)
    (ops : list (when_property * pyval)) (timeout : option Q) :
  let s := snd (assign_all ops (new_stick max_events)) in
  warnings_log s = [] ∧
  warnings_log (snd (read timeout s))
  = if bool_decide (_callbacks s ≠ ∅)
    then [SenseStickCallbackRead "read called while when_* callbacks are assigned"]
    else [].
Proof.
  intros s.
  destruct (assign_all_spec ops _ (new_stick_lifecycle_inv max_events))
    as (s0 & E & [_ Hiff]).
  assert (s = s0) as -> by (subst s; by rewrite E).
  assert (warnings_log s0 = []) as Hw.
  { destruct (assign_all_handle_ok ops (new_stick max_events)) as (_ & _ & _ & Hw & _).
    - intros t Ht. discriminate Ht.
    - by rewrite E in Hw. }
  split; [done|].
  destruct (read_warnings timeout s0) as (-> & _). rewrite Hw. simpl.
  unfold read_advisory.
  destruct (_callbacks_thread s0) as [t|] eqn:Et.
  - rewrite bool_decide_true by done.
    rewrite bool_decide_true; [done|]. intros He. by apply Hiff in He.
  - rewrite bool_decide_false by (intros Hn; by apply Hn).
    rewrite bool_decide_false; [done|]. intros Hn. apply Hn. by apply Hiff.
Qed.

(** ** Dispatch *)

(** The dispatch loop over a run of events that all have a function as
    handler: each is taken from the buffer and its handler invoked on it,
    and the loop goes on with what is left. *)
Lemma run_callbacks_loop_hits (m : gmap string pyval) (evs : list InputEvent)
    (fs : list string) (rest : list InputEvent) (k : nat) :
  Forall2 (λ e f, m !! direction e = Some (PyFunc f)) evs fs →
  ∀ s cb,
    _callbacks s = m → _callbacks_close s = false → _closing s = false →
    items (_buffer s) = (evs ++ rest)%list →
    ∃ s1 cb1,
      _run_callbacks_loop (length evs + k) cb s = _run_callbacks_loop k cb1 s1 ∧
      calls s1 = (calls s ++ zip fs evs)%list ∧
      items (_buffer s1) = rest ∧
      _callbacks s1 = m ∧ _callbacks_close s1 = false ∧ _closing s1 = false.
Proof.
  induction 1 as [|e f evs fs Hef Hrest IH]; intros s cb Hm H1 H2 Hi.
  - exists s, cb. simpl. by rewrite app_nil_r.
  - set (s1 := with_calls (calls s ++ [(f, e)]) (popped s)).
    assert (_run_callbacks_iter cb s = (Ok (Some (PyFunc f)), s1)) as T.
    { rewrite (run_callbacks_iter_hit cb s e (evs ++ rest) (PyFunc f));
        [reflexivity|done|by rewrite Hm]. }
    destruct (IH s1 (Some (PyFunc f))) as (s2 & cb2 & E & Hc & Hi2 & Hrest2);
      try done.
    { subst s1. unfold popped. simpl. by rewrite Hi. }
    exists s2, cb2. split; [|split; [|done]].
    + simpl. unfold bind at 1, gets. simpl. rewrite H1, H2. simpl.
      by rewrite (bind_Ok _ _ _ _ _ T).
    + rewrite Hc. subst s1. simpl. by rewrite <- app_assoc.
Qed.

(** X9. When every buffered event has a function registered for its
    direction, the dispatch loop invokes, oldest event first, the handler of
    each event on that event, once; after [n] turns the first [n] events are
    delivered and gone from the buffer.  When the buffer is drained the next
    turn ends the loop with [queue.Empty]. *)
Theorem dispatch_delivers_in_order (s : SenseStick) (fs : list string) :
  _callbacks_close s = false → _closing s = false →
  Forall2 (λ e f, _callbacks s !! direction e = Some (PyFunc f))
    (items (_buffer s)) fs →
  (∀ n, (n ≤ length (items (_buffer s)))%nat →
     ∃ s', _run_callbacks n s = (Pending, s') ∧
           calls s' = (calls s ++ take n (zip fs (items (_buffer s))))%list ∧
           items (_buffer s') = drop n (items (_buffer s))) ∧
  (∃ s', _run_callbacks (S (length (items (_buffer s)))) s = (Raise Empty, s') ∧
         calls s' = (calls s ++ zip fs (items (_buffer s)))%list ∧
         items (_buffer s') = []).
Proof.
  intros H1 H2 HF. split.
  - intros n Hn.
    pose proof (Forall2_take _ _ _ n HF) as HFn.
    destruct (run_callbacks_loop_hits (_callbacks s) _ _
                (drop n (items (_buffer s))) 0 HFn s None)
      as (s1 & cb1 & E & Hc & Hi & _ & H1' & H2'); try done.
    { by rewrite take_drop. }
    exists s1. rewrite length_take, Nat.min_l, Nat.add_0_r in E by done.
    unfold _run_callbacks. rewrite E. simpl. unfold bind, gets. simpl.
    rewrite H1', H2'. simpl. split; [done|]. split; [|done].
    rewrite Hc. by rewrite zip_with_take.
  - destruct (run_callbacks_loop_hits (_callbacks s) _ _ [] 1 HF s None)
      as (s1 & cb1 & E & Hc & Hi & _ & H1' & H2'); try done.
    { by rewrite app_nil_r. }
    exists s1. rewrite Nat.add_1_r in E.
    unfold _run_callbacks. rewrite E. simpl. unfold bind at 1, gets. simpl.
    rewrite H1', H2'. simpl.
    by rewrite (bind_Raise _ _ _ _ _ (run_callbacks_iter_empty cb1 s1 Hi)).
Qed.

Lemma dispatch_delivers_in_order_witness :
  let r1 := mkRaw 3 0 EV_KEY KEY_UP STATE_PRESS in
  let r2 := mkRaw 4 0 EV_KEY KEY_DOWN STATE_PRESS in
  let s := snd ((assign_all [(prop_when_up, PyFunc "on_up");
                             (prop_when_down, PyFunc "on_down")] ;;;
                 _read_stick_record r1 ;;; _read_stick_record r2) (new_stick 100)) in
  ∃ s', _run_callbacks 3 s = (Raise Empty, s') ∧
        calls s' = [("on_up", mkInputEvent (event_timestamp r1) "up" "pressed");
                    ("on_down", mkInputEvent (event_timestamp r2) "down" "pressed")] ∧
        items (_buffer s') = [].
Proof.
  intros r1 r2 s.
  destruct (dispatch_delivers_in_order s ["on_up"; "on_down"]) as [_ H];
    [reflexivity|reflexivity|by repeat constructor|].
  exact H.
Defined.

(** X10. The setters store any true value without asking whether it can be
    called: a number or a string assigned to a [when_*] property is
    registered, and the dispatch loop that meets an event of that direction
    takes the event from the buffer and ends with [TypeError]. *)
Theorem dispatch_non_callable (s : SenseStick) (p : when_property) (v : pyval)
    (e : InputEvent) (rest : list InputEvent) (n : nat) :
  truthy v = true → (∀ f, v ≠ PyFunc f) →
  _callbacks (snd (assign p v s)) !! key_of p = Some v ∧
  (_callbacks_close s = false → _closing s = false →
   items (_buffer s) = e :: rest → _callbacks s !! direction e = Some v →
   _run_callbacks (S n) s
   = (Raise (TypeError "object is not callable"), popped s)).
Proof.
  intros Hv Hnf. split.
  - rewrite assign_when_set, when_set_callbacks, Hv. apply lookup_insert_eq.
  - intros H1 H2 Hi Hm. unfold _run_callbacks. simpl.
    unfold bind at 1, gets. simpl. rewrite H1, H2. simpl.
    erewrite bind_Raise; [done|].
    rewrite (run_callbacks_iter_hit None s e rest v) by done.
    destruct v; try done. by destruct (Hnf name).
Qed.

Lemma dispatch_non_callable_witness :
  let r := mkRaw 3 0 EV_KEY KEY_UP STATE_PRESS in
  let s := snd ((assign prop_when_up (PyInt 5) ;;; _read_stick_record r)
                  (new_stick 100)) in
  _callbacks s !! "up" = Some (PyInt 5) ∧
  _run_callbacks 1 s = (Raise (TypeError "object is not callable"), popped s).
Proof.
  intros r s. split; [reflexivity|].
  destruct (dispatch_non_callable s prop_when_up (PyInt 5)
              (mkInputEvent (event_timestamp r) "up" "pressed") [] 0) as [_ H];
    [reflexivity|discriminate|].
  apply H; reflexivity.
Defined.

(** ** After [close] *)

Lemma close_frame (s : SenseStick) :
  _callbacks (snd (close s)) = _callbacks s ∧
  _buffer (snd (close s)) = _buffer s ∧
  warnings_log (snd (close s)) = warnings_log s ∧
  calls (snd (close s)) = calls s ∧
  _rotate (snd (close s)) = _rotate s.
Proof.
  unfold close, bind, gets, modify, Thread_join, ret.
  destruct (_read_thread s) as [t|]; simpl; [|done].
  case_bool_decide; simpl;
    [assert (stop_requested (target t) (with_closing true s) = true) as ->
       by (destruct (target t); simpl; by rewrite ?orb_true_r); simpl|];
    destruct (_callbacks_thread s) as [c|] eqn:Ec; simpl;
    try (destruct (target t); simpl; rewrite ?Ec; simpl);
    try done;
    repeat (case_bool_decide; simpl);
    try (destruct (target c); simpl; rewrite ?orb_true_r; simpl);
    try done;
    destruct (target t); done.
Qed.

Lemma run_callbacks_closing (fuel : nat) (s : SenseStick) :
  _closing s = true → _run_callbacks fuel s = (Ok tt, s).
Proof.
  intros Hc. unfold _run_callbacks.
  destruct fuel; simpl; unfold bind, gets; simpl; by rewrite Hc, orb_true_r.
Qed.

Lemma read_stick_loop_closing (polls : list poll) (s : SenseStick) :
  _closing s = true → _read_stick_loop polls s = (Ok tt, s).
Proof.
  intros Hc. destruct polls; simpl; unfold bind, gets; by rewrite Hc.
Qed.

(** X11. Once [close] has run on an open stick, its threads have nothing
    left to do: the reader's loop leaves at once, whatever the device
    holds, without reading a record, and the dispatch loop leaves at once
    without taking an event or invoking a handler, also for a handler
    assigned after the [close]. *)
Theorem closed_stick_is_quiet (s : SenseStick) (t : Thread) (polls : list poll)
    (fuel : nat) (p : when_property) (v : pyval) :
  _read_thread s = Some t →
  _read_stick_loop polls (snd (close s)) = (Ok tt, snd (close s)) ∧
  _run_callbacks fuel (snd (close s)) = (Ok tt, snd (close s)) ∧
  _run_callbacks fuel (snd (assign p v (snd (close s))))
    = (Ok tt, snd (assign p v (snd (close s)))) ∧
  _buffer (snd (close s)) = _buffer s.
Proof.
  intros Hr. destruct (close_first s t Hr) as (s' & E & Hc & _ & Hh & _).
  rewrite E. simpl.
  split; [by apply read_stick_loop_closing|].
  split; [by apply run_callbacks_closing|].
  split.
  - apply run_callbacks_closing.
    rewrite assign_when_set.
    destruct (when_set_frame (key_of p) v s') as (_ & _ & _ & _ & _ & -> & _); [|done].
    intros c Hc'. by rewrite Hh in Hc'.
  - destruct (close_frame s) as (_ & Hb & _). by rewrite E in Hb.
Qed.

Lemma closed_stick_is_quiet_witness :
  let r := mkRaw 3 0 EV_KEY KEY_UP STATE_PRESS in
  let s := snd ((assign prop_when_up (PyFunc "on_up") ;;; _read_stick_record r)
                  (new_stick 100)) in
  _run_callbacks 5 (snd (close s)) = (Ok tt, snd (close s)) ∧
  calls (snd (close s)) = [] ∧
  items (_buffer (snd (close s)))
    = [mkInputEvent (event_timestamp r) "up" "pressed"].
Proof.
  intros r s.
  destruct (closed_stick_is_quiet s reader0 [] 5 prop_when_up PyNone eq_refl)
    as (_ & H & _ & _).
  split; [exact H|]. split; reflexivity.
Defined.

(** X12. [close] does not touch the registry: every [when_*] property reads
    after [close] as it read before, and the buffered events, the advisories
    and the rotation are kept as well.  It does clear the dispatch handle, so
    a [read] after the [close] of an open stick emits no advisory, handlers
    registered or not. *)
Theorem close_keeps_registry (s : SenseStick) (p : when_property) :
  fst (fetch p (snd (close s))) = fst (fetch p s) ∧
  _buffer (snd (close s)) = _buffer s ∧
  warnings_log (snd (close s)) = warnings_log s ∧
  _rotate (snd (close s)) = _rotate s ∧
  (∀ t timeout, _read_thread s = Some t →
     warnings_log (snd (read timeout (snd (close s)))) = warnings_log s).
Proof.
  destruct (close_frame s) as (Hcb & Hb & Hw & _ & Hr).
  split.
  { rewrite fetch_when_get. unfold when_get, bind, gets, ret. simpl.
    by rewrite Hcb. }
  split; [done|]. split; [done|]. split; [done|].
  intros t timeout Ht.
  destruct (close_first s t Ht) as (s' & E & _ & _ & Hh & _).
  rewrite E in Hw |- *. simpl in *.
  destruct (read_warnings timeout s') as (-> & _).
  unfold read_advisory. rewrite Hh, bool_decide_false by (intros Hn; by apply Hn).
  by rewrite app_nil_r.
Qed.

Lemma close_keeps_registry_witness :
  let s := snd (assign prop_when_up (PyFunc "on_up") (new_stick 100)) in
  fst (fetch prop_when_up (snd (close s))) = Ok (PyFunc "on_up") ∧
  warnings_log (snd (read (Some (QArith_base.Qmake 1 10)) (snd (close s)))) = [].
Proof.
  intros s.
  destruct (close_keeps_registry s prop_when_up) as (H1 & _ & _ & _ & H2).
  split.
  - rewrite H1. reflexivity.
  - apply (H2 reader0). reflexivity.
Defined.

(** A true value assigned while the dispatch handle is clear starts a
    thread. *)
Lemma when_set_starts (name : string) (v : pyval) (s : SenseStick) :
  truthy v = true → _callbacks_thread s = None →
  when_set name v s
  = (Ok tt,
     with_callbacks_thread (Some (mkThread (next_tid s) target_run_callbacks))
       (with_threads (threads s ++ [mkThread (next_tid s) target_run_callbacks])
          (S (next_tid s))
          (with_callbacks_close false
             (with_callbacks (<[name := v]> (_callbacks s)) s)))).
Proof.
  intros Hv Hh.
  unfold when_set, _start_stop_callbacks, bind, gets, modify, Thread_start, ret.
  rewrite Hv. simpl. rewrite Hh.
  rewrite bool_decide_true by apply insert_non_empty. done.
Qed.

(** X13. A handler assigned after the [close] of an open stick starts a
    dispatch thread again (the registry is no longer empty and the handle
    was cleared); a further [close] finds the reader handle cleared and
    returns without joining that thread or clearing its handle. *)
Theorem assign_after_close (s : SenseStick) (t : Thread) (p : when_property)
    (v : pyval) :
  _read_thread s = Some t → truthy v = true →
  ∃ d, _callbacks_thread (snd (assign p v (snd (close s)))) = Some d ∧
       target d = target_run_callbacks ∧
       d ∈ threads (snd (assign p v (snd (close s)))) ∧
       close (snd (assign p v (snd (close s))))
         = (Ok tt, snd (assign p v (snd (close s)))).
Proof.
  intros Hr Hv. destruct (close_first s t Hr) as (s' & E & _ & Hrn & Hh & _).
  rewrite E. simpl. rewrite assign_when_set, (when_set_starts _ v s') by done.
  simpl. eexists. split; [reflexivity|]. split; [reflexivity|]. split.
  - apply elem_of_app. right. by apply list_elem_of_singleton.
  - by apply close_again.
Qed.

Lemma assign_after_close_witness :
  let s2 := snd (assign prop_when_up (PyFunc "on_up") (snd (close (new_stick 100)))) in
  _callbacks_thread s2 = Some (mkThread 1 target_run_callbacks) ∧
  threads s2 = [mkThread 1 target_run_callbacks] ∧
  close s2 = (Ok tt, s2).
Proof.
  intros s2. split; [reflexivity|]. split; [reflexivity|].
  destruct (assign_after_close (new_stick 100) reader0 prop_when_up (PyFunc "on_up")
              eq_refl eq_refl) as (d & _ & _ & _ & H).
  exact H.
Defined.

(** ** The reader's loop *)

Lemma read_stick_record_frame (r : raw_event) (s : SenseStick) :
  _closing (snd (_read_stick_record r s)) = _closing s ∧
  stick_file_open (snd (_read_stick_record r s)) = stick_file_open s ∧
  _callbacks (snd (_read_stick_record r s)) = _callbacks s ∧
  calls (snd (_read_stick_record r s)) = calls s.
Proof.
  unfold _read_stick_record.
  destruct (type r =? EV_KEY); [|done].
  rewrite overflow_then. unfold after_overflow.
  destruct (Queue_full (_buffer s)); unfold bind, dict_getitem;
    destruct (direction_table !! code r); simpl; try done;
    destruct (action_table !! value r); simpl; try done;
    unfold buffer_put; simpl;
    match goal with |- context [if ?b then _ else _] => by destruct b end.
Qed.

Lemma read_stick_loop_step (p : poll) (rest : list poll) (s : SenseStick) :
  _closing s = false →
  _read_stick_loop (p :: rest) s
  = bind (_read_stick_iter p) (fun _ => _read_stick_loop rest) s.
Proof. intros Hc. simpl. unfold bind at 1, gets. by rewrite Hc. Qed.

Lemma read_stick_iter_unmapped (p : poll) (s : SenseStick) :
  unmapped_poll p →
  ∃ k, _read_stick_iter p s = (Raise (KeyError k), after_overflow s).
Proof.
  destruct p as [|r]; [done|]. intros [Ht [Hd|Ha]]; simpl.
  - exists (PyInt (code r)). by apply read_stick_record_unmapped_code.
  - destruct (direction_table !! code r) as [d|] eqn:Hd.
    + exists (PyInt (value r)). by apply (read_stick_record_unmapped_value r s d).
    + exists (PyInt (code r)). by apply read_stick_record_unmapped_code.
Qed.

Lemma read_stick_iter_mapped (p : poll) (s : SenseStick) :
  ¬ unmapped_poll p → buffer_ok s →
  ∃ s1, _read_stick_iter p s = (Ok tt, s1).
Proof.
  destruct p as [|r]; [by exists s|]. simpl. intros Hn Hok.
  destruct (Z.eq_dec (type r) EV_KEY) as [Ht|Ht];
    [|exists s; by apply read_stick_record_other_type].
  destruct (direction_table !! code r) as [d|] eqn:Hd;
    [|exfalso; apply Hn; split; [done|by left]].
  destruct (action_table !! value r) as [a|] eqn:Ha;
    [|exfalso; apply Hn; split; [done|by right]].
  eexists. by apply (read_stick_record_mapped r s d a).
Qed.

Lemma read_stick_iter_frame (p : poll) (s : SenseStick) :
  _closing (snd (_read_stick_iter p s)) = _closing s ∧
  stick_file_open (snd (_read_stick_iter p s)) = stick_file_open s ∧
  (buffer_ok s → buffer_ok (snd (_read_stick_iter p s))).
Proof.
  destruct p as [|r]; [done|]. simpl.
  destruct (read_stick_record_frame r s) as (H1 & H2 & _).
  split; [done|]. split; [done|]. apply read_stick_record_buffer_ok.
Qed.

Lemma read_stick_loop_outcome (polls : list poll) :
  ∀ s, _closing s = false → buffer_ok s →
  (Exists unmapped_poll polls →
     ∃ k s', _read_stick_loop polls s = (Raise (KeyError k), s') ∧
             stick_file_open s' = stick_file_open s) ∧
  (¬ Exists unmapped_poll polls →
     ∃ s', _read_stick_loop polls s = (Pending, s') ∧
           stick_file_open s' = stick_file_open s).
Proof.
  induction polls as [|p polls IH]; intros s Hc Hok.
  - split; [by intros H%Exists_nil|]. intros _. exists s.
    simpl. unfold bind, gets. by rewrite Hc.
  - rewrite read_stick_loop_step by done.
    destruct (decide (unmapped_poll p)) as [Hu|Hu].
    + destruct (read_stick_iter_unmapped p s Hu) as (k & E).
      split; [|intros Hn; exfalso; apply Hn; by left].
      intros _. exists k, (after_overflow s).
      rewrite (bind_Raise _ _ _ _ _ E). split; [done|].
      unfold after_overflow. by destruct (Queue_full (_buffer s)).
    + destruct (read_stick_iter_mapped p s Hu Hok) as (s1 & E).
      destruct (read_stick_iter_frame p s) as (Hc1 & Hf1 & Hok1).
      rewrite E in Hc1, Hf1, Hok1. simpl in *.
      rewrite (bind_Ok _ _ _ _ _ E).
      destruct (IH s1 ltac:(congruence) (Hok1 Hok)) as [IHe IHn].
      split.
      * intros [Hp|Hrest]%Exists_cons; [done|].
        destruct (IHe Hrest) as (k & s' & E' & Hf'). exists k, s'.
        split; [done|congruence].
      * intros Hn. destruct IHn as (s' & E' & Hf').
        { intros Hrest. apply Hn. by right. }
        exists s'. split; [done|congruence].
Qed.



(** X15. Turns in which the device is not readable and records that are not
    of type [EV_KEY] leave no trace: the loop over any run of turns does
    exactly what it does over the key records among them. *)
Theorem reader_skips_other_polls (polls : list poll) (s : SenseStick) :
  _read_stick_loop polls s = _read_stick_loop (filter is_key_poll polls) s.
Proof.
  revert s. induction polls as [|p polls IH]; intros s; [done|].
  destruct (_closing s) eqn:Hc.
  { by rewrite !read_stick_loop_closing. }
  destruct (decide (is_key_poll p)) as [Hk|Hk].
  - rewrite filter_cons_True, !read_stick_loop_step by done.
    unfold bind. destruct (_read_stick_iter p s) as [[[]|e|] s1]; [apply IH|done..].
  - rewrite filter_cons_False, read_stick_loop_step by done.
    assert (_read_stick_iter p s = (Ok tt, s)) as E.
    { destruct p as [|r]; [done|]. by apply read_stick_record_other_type. }
    rewrite (bind_Ok _ _ _ _ _ E). apply IH.
Qed.

Lemma pushes_room (rs : list raw_event) (evs : list InputEvent)
    (s : SenseStick) :
  Forall2 parses_to rs evs → _closing s = false →
  maxsize (_buffer s) ≤ 0 ∨
    Z.of_nat (length (items (_buffer s)) + length rs) ≤ maxsize (_buffer s) →
  ∃ s', _read_stick_loop (Readable <$> rs) s = (Pending, s') ∧
        items (_buffer s') = (items (_buffer s) ++ evs)%list ∧
        warnings_log s' = warnings_log s.
Proof.
  intros HF. revert s. induction HF as [|r e rs evs Hre Hrest IH]; intros s Hc Hroom.
  - exists s. simpl. unfold bind, gets. rewrite Hc. by rewrite app_nil_r.
  - assert (Queue_full (_buffer s) = false) as NF.
    { unfold Queue_full, qsize. apply andb_false_iff.
      destruct Hroom as [Hm|Hm]; [left; apply Z.ltb_ge; lia|].
      right. apply Z.leb_gt. simpl in Hm. lia. }
    assert (buffer_ok s) as Hok.
    { intros Hpos. unfold qsize. destruct Hroom as [Hm|Hm]; simpl in Hm; lia. }
    destruct Hre as (Ht & Hd & Ha & Hts).
    pose proof (read_stick_record_mapped r s _ _ Ht Hok Hd Ha) as E.
    unfold after_overflow in E. rewrite NF, <- Hts in E.
    assert (mkInputEvent (timestamp e) (direction e) (action e) = e) as He
      by by destruct e.
    rewrite He in E.
    rewrite fmap_cons, read_stick_loop_step by done. simpl.
    rewrite (bind_Ok _ _ _ _ _ E).
    destruct (IH (with_buffer (mkQueue (maxsize (_buffer s))
                                 (items (_buffer s) ++ [e])) s))
      as (s' & E' & Hi' & Hw'); [done| |].
    { simpl. rewrite length_app. simpl.
      destruct Hroom as [Hm|Hm]; [by left|right]. simpl in Hm. lia. }
    exists s'. split; [done|]. simpl in Hi', Hw'.
    split; [by rewrite Hi', <- app_assoc|done].
Qed.

(** X16. No event is lost while the buffer has room: key records read into a
    buffer that is unbounded ([max_events <= 0]) or has room for all of
    them are all kept, behind the events already there and in the order
    read, and no advisory is emitted. *)
Theorem pushes_within_capacity (rs : list raw_event) (evs : list InputEvent)
    (s : SenseStick) :
  Forall2 parses_to rs evs → _closing s = false →
  maxsize (_buffer s) ≤ 0 ∨
    Z.of_nat (length (items (_buffer s)) + length rs) ≤ maxsize (_buffer s) →
  ∃ s', _read_stick_loop (Readable <$> rs) s = (Pending, s') ∧
        items (_buffer s') = (items (_buffer s) ++ evs)%list ∧
        length (items (_buffer s')) = (length (items (_buffer s)) + length rs)%nat ∧
        warnings_log s' = warnings_log s.
Proof.
  intros HF Hc Hroom.
  destruct (pushes_room rs evs s HF Hc Hroom) as (s' & E & Hi & Hw).
  exists s'. split; [done|]. split; [done|]. split; [|done].
  rewrite Hi, length_app. by rewrite (Forall2_length _ _ _ HF).
Qed.

Lemma pushes_within_capacity_witness :
  let r1 := mkRaw 1 0 EV_KEY KEY_UP STATE_PRESS in
  let r2 := mkRaw 2 0 EV_KEY KEY_UP STATE_RELEASE in
  ∃ s', _read_stick_loop (Readable <$> [r1; r2]) (new_stick 0) = (Pending, s') ∧
        items (_buffer s')
          = (items (_buffer (new_stick 0))
               ++ [mkInputEvent (event_timestamp r1) "up" "pressed";
                   mkInputEvent (event_timestamp r2) "up" "released"])%list ∧
        length (items (_buffer s'))
          = (length (items (_buffer (new_stick 0))) + length [r1; r2])%nat ∧
        warnings_log s' = warnings_log (new_stick 0).
Proof.
  intros r1 r2.
  apply (pushes_within_capacity [r1; r2] _ (new_stick 0)).
  - by repeat constructor.
  - reflexivity.
  - left. simpl. lia.
Defined.

(** X17. The overflow step comes before the table lookups: a key record with
    an unknown code or value, read while the buffer is full, still costs the
    oldest buffered event and an advisory, although nothing is put in its
    place and the reader dies with [KeyError]. *)
Theorem unmapped_on_full_buffer (r : raw_event) (s : SenseStick) :
  unmapped r → Queue_full (_buffer s) = true →
  ∃ k e rest s',
    items (_buffer s) = e :: rest ∧
    _read_stick_record r s = (Raise (KeyError k), s') ∧
    items (_buffer s') = rest ∧
    warnings_log s'
      = (warnings_log s ++ [SenseStickBufferFull buffer_full_msg])%list.
Proof.
  intros Hu HF.
  destruct (Queue_full_items _ HF) as (e & rest & Hi).
  destruct (read_stick_iter_unmapped (Readable r) s Hu) as (k & E).
  exists k, e, rest, (after_overflow s). simpl in E.
  split; [done|]. split; [done|].
  unfold after_overflow. rewrite HF. simpl. by rewrite Hi.
Qed.

Lemma unmapped_on_full_buffer_witness :
  let e1 := mkInputEvent (event_timestamp (mkRaw 1 0 EV_KEY KEY_UP STATE_PRESS))
              "up" "pressed" in
  let s := snd (_read_stick_record (mkRaw 1 0 EV_KEY KEY_UP STATE_PRESS)
                  (new_stick 1)) in
  ∃ k e rest s',
    items (_buffer s) = e :: rest ∧
    _read_stick_record (mkRaw 2 0 EV_KEY 30 STATE_PRESS) s = (Raise (KeyError k), s') ∧
    items (_buffer s') = rest ∧
    warnings_log s'
      = (warnings_log s ++ [SenseStickBufferFull buffer_full_msg])%list.
Proof.
  intros e1 s.
  apply (unmapped_on_full_buffer (mkRaw 2 0 EV_KEY 30 STATE_PRESS) s).
  - split; [reflexivity|left; reflexivity].
  - reflexivity.
Defined.

(** ** Assignments to [rotate] *)

Lemma multiple_of_90_below_360 (r : Z) :
  r mod 90 = 0 → 0 ≤ r < 360 → r ∈ [0; 90; 180; 270].
Proof.
  intros Hm Hr. pose proof (Z.div_mod r 90 ltac:(lia)) as D.
  assert (r / 90 = 0 ∨ r / 90 = 1 ∨ r / 90 = 2 ∨ r / 90 = 3) as Hq by lia.
  assert (r = 0 ∨ r = 90 ∨ r = 180 ∨ r = 270) as Hv by lia.
  destruct Hv as [-> | [-> | [-> | ->]]]; by repeat constructor.
Qed.

Lemma rotate_after_stored (vs : list Z) (s : SenseStick) :
  _rotate (rotate_after vs s)
  = match last (filter (λ v, v mod 90 = 0) vs) with
    | Some v => Some (v mod 360)
    | None => _rotate s
    end.
Proof.
  revert s. induction vs as [|v vs IH]; intros s; [done|].
  unfold rotate_after in *. simpl. rewrite IH. unfold _set_rotate.
  destruct (Z.eqb_spec (v mod 90) 0) as [E|E]; simpl.
  - rewrite filter_cons_True by done. rewrite last_cons.
    by destruct (last (filter (λ v0, v0 mod 90 = 0) vs)).
  - by rewrite filter_cons_False.
Qed.

(** X18. After any run of assignments to [rotate] on a new stick, accepted
    or refused, reading [rotate] gives the last accepted value reduced
    modulo 360, which is one of 0, 90, 180 and 270; while no assignment has
    been accepted, reading it raises [AttributeError]. *)
Theorem rotate_history (max_events : Z) (vs : list Z) :
  match last (filter (λ v, v mod 90 = 0) vs) with
  | Some v =>
      fst (_get_rotate (rotate_after vs (new_stick max_events))) = Ok (v mod 360) ∧
      v mod 360 ∈ [0; 90; 180; 270]
  | None =>
      fst (_get_rotate (rotate_after vs (new_stick max_events)))
      = Raise (AttributeError "_rotate")
  end.
Proof.
  pose proof (rotate_after_stored vs (new_stick max_events)) as H.
  destruct (last (filter (λ v, v mod 90 = 0) vs)) as [v|] eqn:El.
  - split.
    + unfold _get_rotate, bind, gets. by rewrite H.
    + assert (v ∈ filter (λ v, v mod 90 = 0) vs) as Hin.
      { destruct (proj1 (last_Some _ _) El) as [l Hl]. rewrite Hl. set_solver. }
      apply list_elem_of_filter in Hin as [Hv _].
      apply multiple_of_90_below_360; [by apply mod_90_mod_360|].
      apply Z.mod_pos_bound. lia.
  - unfold _get_rotate, bind, gets. by rewrite H.
Qed.

(** ** Scoped use *)

Lemma close_returns (s : SenseStick) :
  fst (close s) = Ok tt ∧ _read_thread (snd (close s)) = None.
Proof.
  destruct (_read_thread s) as [t|] eqn:Hr.
  - destruct (close_first s t Hr) as (s' & -> & _ & Hn & _). done.
  - by rewrite close_again.
Qed.

(** X19. [with stick: body] closes the stick on both ways out of the body:
    when the body returns, its value is the result; when it raises, the
    same exception goes on after the [close] ([__exit__] returns [None]);
    in both cases the state is the one [close] leaves behind the body, with
    the reader handle cleared, so that a later [close] does nothing. *)
Theorem with_statement_closes {A} (body : M A) (s : SenseStick) :
  match body s with
  | (Ok a, s1) => with_statement body s = (Ok (Some a), snd (close s1))
  | (Raise e, s1) => with_statement body s = (Raise e, snd (close s1))
  | (Pending, s1) => with_statement body s = (Pending, s1)
  end ∧
  (fst (body s) ≠ Pending →
     _read_thread (snd (with_statement body s)) = None ∧
     close (snd (with_statement body s)) = (Ok tt, snd (with_statement body s))).
Proof.
  assert (match body s with
          | (Ok a, s1) => with_statement body s = (Ok (Some a), snd (close s1))
          | (Raise e, s1) => with_statement body s = (Raise e, snd (close s1))
          | (Pending, s1) => with_statement body s = (Pending, s1)
          end) as H.
  { unfold with_statement, __enter__, __exit__, bind, ret, raise. simpl.
    destruct (body s) as [[a|e|] s1]; [| |done];
      destruct (close_returns s1) as [Hc _];
      destruct (close s1) as [r s2]; simpl in Hc; by subst r. }
  split; [done|]. intros Hp.
  destruct (body s) as [[a|e|] s1]; simpl in Hp; [| |done];
    rewrite H; simpl; destruct (close_returns s1) as [_ Hn];
    (split; [done|by apply close_again]).
Qed.

Lemma with_statement_closes_witness :
  let body := (_set_rotate 45 ;;; read (Some (QArith_base.Qmake 1 10))) in
  with_statement body (new_stick 100)
    = (Raise (ValueError "rotate must be a multiple of 90"),
       snd (close (new_stick 100))) ∧
  _read_thread (snd (with_statement body (new_stick 100))) = None ∧
  close (snd (with_statement body (new_stick 100)))
    = (Ok tt, snd (with_statement body (new_stick 100))).
Proof.
  intros body.
  destruct (with_statement_closes body (new_stick 100)) as [H1 H2].
  split; [exact H1|]. apply H2. discriminate.
Defined.

(** ** The threads of a stick, from construction to [close] *)

Lemma lifecycle_handle_target (s : SenseStick) :
  handle_inv s → dispatch_handle_ok s.
Proof.
  intros (_ & Hd & _) t Ht.
  assert (t ∈ dispatch_threads s) as Hin by (rewrite Hd, Ht; by left).
  apply list_elem_of_filter in Hin as [Hdis _].
  unfold is_dispatch in Hdis. by destruct (target t).
Qed.

Lemma when_set_start_stop (name : string) (v : pyval) (s : SenseStick) :
  when_set name v s
  = _start_stop_callbacks
      (with_callbacks (if truthy v then <[name := v]> (_callbacks s)
                       else delete name (_callbacks s)) s).
Proof. unfold when_set, bind, modify. by destruct (truthy v). Qed.

(** The threads of the object are the reader and the dispatch thread the
    handle names. *)
Lemma assign_threads (p : when_property) (v : pyval) (s : SenseStick) :
  lifecycle_inv s →
  threads s = reader0 :: option_list (_callbacks_thread s) →
  threads (snd (assign p v s))
  = reader0 :: option_list (_callbacks_thread (snd (assign p v s))).
Proof.
  intros [Hh _] Ht. rewrite assign_when_set, when_set_start_stop.
  set (m := if truthy v then _ else _). set (s1 := with_callbacks m s).
  assert (handle_inv s1) as Hh1 by exact Hh.
  pose proof (lifecycle_handle_target s Hh) as Htg.
  destruct (start_stop_callbacks_spec s1 Hh1) as (s' & E & _ & _ & Hcase).
  rewrite E. simpl.
  change (_callbacks_thread s1) with (_callbacks_thread s) in Hcase.
  change (threads s1) with (threads s) in Hcase.
  change (_callbacks s1) with m in Hcase.
  destruct (_callbacks_thread s) as [t|] eqn:Et; destruct Hcase as [H1 H2];
    destruct (decide (m = ∅)) as [Hm|Hm].
  - destruct (H2 Hm) as (-> & _ & ->). rewrite Ht. simpl.
    rewrite filter_cons_True, filter_cons_False; [done|by intros H|].
    intros Heq. specialize (Htg _ Et). by rewrite <- Heq in Htg.
  - rewrite (H1 Hm). subst s1. simpl. by rewrite Et.
  - rewrite (H1 Hm). subst s1. simpl. by rewrite Et.
  - destruct (H2 Hm) as (t & -> & _ & -> & _). by rewrite Ht.
Qed.

Lemma assign_all_threads (ops : list (when_property * pyval)) (s : SenseStick) :
  lifecycle_inv s → dispatch_handle_ok s →
  threads s = reader0 :: option_list (_callbacks_thread s) →
  threads (snd (assign_all ops s))
    = reader0 :: option_list (_callbacks_thread (snd (assign_all ops s))) ∧
  _read_thread (snd (assign_all ops s)) = _read_thread s ∧
  stick_file_open (snd (assign_all ops s)) = stick_file_open s ∧
  dispatch_handle_ok (snd (assign_all ops s)).
Proof.
  revert s. induction ops as [|[p v] ops IH]; intros s Hinv Hok Ht; [done|].
  destruct (assign_spec p v s Hinv) as (s1 & E1 & Hinv1 & _).
  pose proof (assign_threads p v s Hinv Ht) as Ht1.
  destruct (when_set_frame (key_of p) v s Hok)
    as (_ & _ & _ & _ & _ & _ & Hr & Hf & Hok1).
  rewrite <- assign_when_set, E1 in Hr, Hf, Hok1.
  rewrite E1 in Ht1. simpl in *.
  rewrite (bind_Ok _ _ _ _ _ E1).
  destruct (IH s1 Hinv1 Hok1 Ht1) as (H1 & H2 & H3 & H4).
  repeat split; try done; congruence.
Qed.

Lemma Thread_join_state (t : Thread) (s : SenseStick) :
  _closing s = true → t ∈ threads s →
  Thread_join t s
  = (Ok tt, thread_exit (target t)
              (with_threads (filter (λ u, u ≠ t) (threads s)) (next_tid s) s)).
Proof.
  intros Hc Hin. unfold Thread_join. rewrite bool_decide_true by done.
  assert (stop_requested (target t) s = true) as ->; [|done].
  unfold stop_requested. rewrite Hc. destruct (target t); [done|apply orb_true_r].
Qed.

Lemma close_joins_all (s : SenseStick) :
  _read_thread s = Some reader0 → dispatch_handle_ok s →
  threads s = reader0 :: option_list (_callbacks_thread s) →
  ∃ s', close s = (Ok tt, s') ∧ threads s' = [] ∧
        stick_file_open s' = false ∧ _closing s' = true.
Proof.
  intros Hr Hok Ht.
  assert (reader0 ∈ threads (with_closing true s)) as Hin
    by (simpl; rewrite Ht; by left).
  pose proof (Thread_join_state reader0 (with_closing true s) eq_refl Hin) as J1.
  set (s1 := thread_exit (target reader0)
               (with_threads (filter (λ u, u ≠ reader0) (threads (with_closing true s)))
                  (next_tid (with_closing true s)) (with_closing true s))) in J1.
  assert (threads s1 = option_list (_callbacks_thread s)) as Ht1.
  { subst s1. simpl. rewrite Ht.
    rewrite filter_cons_False by (by intros H).
    destruct (_callbacks_thread s) as [c|] eqn:Ec; simpl; [|done].
    rewrite filter_cons_True; [done|].
    intros ->. by specialize (Hok _ Ec). }
  destruct (_callbacks_thread s) as [c|] eqn:Ec.
  - assert (c ∈ threads s1) as Hin1 by (rewrite Ht1; by left).
    pose proof (Thread_join_state c s1 eq_refl Hin1) as J2.
    eexists. split.
    { unfold close. unfold bind at 1, gets. rewrite Hr.
      unfold bind at 1, modify at 1. rewrite (bind_Ok _ _ _ _ _ J1).
      unfold bind at 1, gets.
      change (_callbacks_thread s1) with (_callbacks_thread s). rewrite Ec.
      rewrite (bind_Ok _ _ _ _ _ J2). reflexivity. }
    assert (c ≠ reader0) as Hne by (intros ->; by specialize (Hok _ Ec)).
    subst s1. simpl. rewrite (Hok c Ec), Ht. simpl.
    rewrite (filter_cons_False _ reader0) by (by intros H).
    rewrite (filter_cons_True _ c) by done.
    rewrite filter_nil.
    rewrite (filter_cons_False _ c) by (by intros H). done.
  - eexists. split.
    { unfold close. unfold bind at 1, gets. rewrite Hr.
      unfold bind at 1, modify at 1. rewrite (bind_Ok _ _ _ _ _ J1).
      unfold bind at 1, gets.
      change (_callbacks_thread s1) with (_callbacks_thread s). rewrite Ec.
      reflexivity. }
    subst s1. simpl. rewrite Ht. simpl.
    rewrite (filter_cons_False _ reader0) by (by intros H). done.
Qed.


(** ** From the device to the consumer *)

(** X21. What the reader parses is what a consumer gets: key records read
    into the buffer of a new stick that has room for them (or is unbounded)
    come out of the iteration as the events the tables give them, in the
    order the records were read, and the buffer is empty afterwards. *)
Theorem records_read_back_in_order (max_events : Z) (rs : list raw_event)
    (evs : list InputEvent) :
  Forall2 parses_to rs evs →
  max_events ≤ 0 ∨ Z.of_nat (length rs) ≤ max_events →
  fst (__iter__ (length rs)
         (snd (_read_stick_loop (Readable <$> rs) (new_stick max_events))))
    = Ok (Some <$> evs) ∧
  items (_buffer (snd (__iter__ (length rs)
           (snd (_read_stick_loop (Readable <$> rs) (new_stick max_events))))))
    = [].
Proof.
  intros HF Hroom.
  destruct (pushes_room rs evs (new_stick max_events) HF eq_refl Hroom)
    as (s' & E & Hi & _).
  rewrite E. simpl in *.
  pose proof (Forall2_length _ _ _ HF) as HL.
  destruct (iter_take_drop (length rs) s') as [H _].
  destruct H as [H1 H2]; [rewrite Hi; lia|].
  rewrite H1, H2, Hi, HL. by rewrite firstn_all, drop_all.
Qed.

Lemma records_read_back_in_order_witness :
  let r1 := mkRaw 1 0 EV_KEY KEY_UP STATE_PRESS in
  let r2 := mkRaw 1 200000 EV_KEY KEY_UP STATE_HOLD in
  let r3 := mkRaw 1 400000 EV_KEY KEY_UP STATE_RELEASE in
  let r4 := mkRaw 2 0 EV_KEY KEY_ENTER STATE_PRESS in
  fst (__iter__ 4 (snd (_read_stick_loop (Readable <$> [r1; r2; r3; r4])
                          (new_stick 100))))
  = Ok [Some (mkInputEvent (event_timestamp r1) "up" "pressed");
        Some (mkInputEvent (event_timestamp r2) "up" "held");
        Some (mkInputEvent (event_timestamp r3) "up" "released");
        Some (mkInputEvent (event_timestamp r4) "enter" "pressed")].
Proof.
  intros r1 r2 r3 r4.
  apply (records_read_back_in_order 100 [r1; r2; r3; r4]
           [mkInputEvent (event_timestamp r1) "up" "pressed";
            mkInputEvent (event_timestamp r2) "up" "held";
            mkInputEvent (event_timestamp r3) "up" "released";
            mkInputEvent (event_timestamp r4) "enter" "pressed"]).
  - by repeat constructor.
  - right. simpl. lia.
Defined.

Lemma direction_has_property (c : Z) (d : string) :
  direction_table !! c = Some d → ∃ p, key_of p = d.
Proof.
  rewrite direction_table_lookup.
  repeat (match goal with
          | |- context [c =? ?k] =>
              destruct (c =? k);
              [intros [= <-];
               first [by exists prop_when_up | by exists prop_when_down
                     | by exists prop_when_left | by exists prop_when_right
                     | by exists prop_when_enter]|]
          end).
  done.
Qed.

(** X22. The directions of the reader are the keys of the five properties:
    every direction in the reader's table is the key of a [when_*]
    property, and every property's key is in the table.  So once a function
    is assigned to each of the five properties, no event misses its
    handler: a dispatch turn takes the oldest event and invokes the
    function registered for its direction on it. *)
Theorem directions_match_properties :
  (∀ c d, direction_table !! c = Some d → ∃ p, key_of p = d) ∧
  (∀ p, ∃ c, direction_table !! c = Some (key_of p)) ∧
  (∀ s r e cb rest,
     parses_to r e →
     (∀ p, ∃ f, _callbacks s !! key_of p = Some (PyFunc f)) →
     items (_buffer s) = e :: rest →
     ∃ f, _callbacks s !! direction e = Some (PyFunc f) ∧
          _run_callbacks_iter cb s
          = (Ok (Some (PyFunc f)), with_calls (calls s ++ [(f, e)]) (popped s))).
Proof.
  split; [apply direction_has_property|]. split.
  - intros p. destruct p;
      [exists KEY_UP|exists KEY_DOWN|exists KEY_LEFT|exists KEY_RIGHT|exists KEY_ENTER];
      reflexivity.
  - intros s r e cb rest (_ & Hd & _) Hall Hi.
    destruct (direction_has_property _ _ Hd) as [p Hp].
    destruct (Hall p) as [f Hf]. rewrite Hp in Hf.
    exists f. split; [done|].
    by rewrite (run_callbacks_iter_hit cb s e rest (PyFunc f)).
Qed.

Lemma directions_match_properties_witness :
  let r := mkRaw 1 0 EV_KEY KEY_RIGHT STATE_PRESS in
  let e := mkInputEvent (event_timestamp r) "right" "pressed" in
  let s := snd ((assign_all [(prop_when_up, PyFunc "on_up");
                             (prop_when_down, PyFunc "on_down");
                             (prop_when_left, PyFunc "on_left");
                             (prop_when_right, PyFunc "on_right");
                             (prop_when_enter, PyFunc "on_enter")] ;;;
                 _read_stick_record r) (new_stick 100)) in
  ∃ f, _callbacks s !! direction e = Some (PyFunc f) ∧
       _run_callbacks_iter None s
       = (Ok (Some (PyFunc f)), with_calls (calls s ++ [(f, e)]) (popped s)).
Proof.
  intros r e s.
  destruct directions_match_properties as (_ & _ & H).
  apply (H s r e None []).
  - by repeat split.
  - intros p. destruct p; eexists; reflexivity.
  - reflexivity.
Defined.
